(** * The Oracle dialect of kine: pkg/drivers/oracle/oracle.go

    A shallow embedding of the Oracle driver: the placeholder translator
    [q], the query templates of [New] read as relational queries over the
    [kine] table, the error classifier [TranslateErr] and the schema
    installer [setup], with the properties the specification states about
    them. *)

From Stdlib Require Import ZArith List Bool Ascii String Lia.
From Stdlib Require Import DecimalString DecimalZ DecimalPos Decimal.
From Stdlib Require Import Sorting.Sorted Sorting.Permutation.
Import ListNotations.

Local Open Scope string_scope.
Local Open Scope Z_scope.

(** ** The parts of the Go runtime and library the driver relies on *)

Module Go.

(** The largest value of Go's [int] on a 64-bit platform. *)
Definition MaxInt : Z := 2 ^ 63 - 1.

(** The largest value of [uint64]. *)
Definition MaxUint64 : Z := 2 ^ 64 - 1.

(** Arithmetic on [int] wraps around in two's complement. *)
Definition int_wrap (z : Z) : Z := (z + 2 ^ 63) mod 2 ^ 64 - 2 ^ 63.

(** The conversion [int(x)] of a [uint64] keeps the 64 bits. *)
Definition int_of_uint64 (x : Z) : Z := int_wrap x.

(** [strconv.Itoa]: the decimal text of an [int], with a leading minus
    sign for negative numbers and no leading zero. *)
Definition Itoa (n : Z) : string := NilZero.string_of_int (Z.to_int n).

(** [len(s)] for a string, as an integer. *)
Definition len (s : string) : Z := Z.of_nat (String.length s).

Definition is_digit (c : ascii) : bool :=
  (Ascii.leb "0" c && Ascii.leb c "9")%bool.

Definition digit_value (c : ascii) : Z := Z.of_N (N_of_ascii c) - 48.

(** The outcome of [strconv.ParseUint]: the value and whether an error is
    returned with it. *)
Inductive NumError := ErrSyntax | ErrRange.

(** The digit loop of [strconv.ParseUint(s, 10, 64)].  Base 10 accepts
    neither a sign nor an underscore; a letter is a digit of value at
    least 10 and so is refused as well.  The first digit that makes the
    number exceed [MaxUint64] ends the loop with the maximal value and a
    range error. *)
Fixpoint parse_digits (n : Z) (s : string) : Z * option NumError :=
  match s with
  | EmptyString => (n, None)
  | String c rest =>
      if is_digit c then
        if (MaxUint64 / 10 + 1 <=? n) then (MaxUint64, Some ErrRange)
        else
          let n1 := n * 10 + digit_value c in
          if (MaxUint64 <? n1) then (MaxUint64, Some ErrRange)
          else parse_digits n1 rest
      else (0, Some ErrSyntax)
  end.

Definition ParseUint (s : string) : Z * option NumError :=
  match s with
  | EmptyString => (0, Some ErrSyntax)
  | _ => parse_digits 0 s
  end.

(** [os.Getenv] gives the empty string for a variable that is not set. *)
Definition Getenv (value : option string) : string :=
  match value with
  | Some v => v
  | None => EmptyString
  end.

End Go.

(** ** The placeholder translator *)

Definition pref : string := ":".

(** The replacement loop of [regexp.ReplaceAllStringFunc] for the pattern
    [\?], which matches exactly one question mark: the text is scanned
    from left to right and each match is replaced by what the callback
    returns.  The callback increments the captured counter [n] and returns
    [pref + strconv.Itoa(n)]. *)
Fixpoint replace_all (n : Z) (sql : string) : string :=
  match sql with
  | EmptyString => EmptyString
  | String c rest =>
      if Ascii.eqb c "?" then
        let n' := Go.int_wrap (n + 1) in
        pref ++ Go.Itoa n' ++ replace_all n' rest
      else String c (replace_all n rest)
  end.

Definition q (sql : string) : string := replace_all 0 sql.

(** The number of generic markers of a template. *)
Fixpoint count_markers (s : string) : nat :=
  match s with
  | EmptyString => O
  | String c rest =>
      if Ascii.eqb c "?" then S (count_markers rest) else count_markers rest
  end.

(** The pieces of a template between its generic markers: a template with
    [k] markers has [k + 1] pieces, some of which may be empty. *)
Fixpoint segments (s : string) : list string :=
  match s with
  | EmptyString => [EmptyString]
  | String c rest =>
      if Ascii.eqb c "?" then EmptyString :: segments rest
      else match segments rest with
           | [] => [String c EmptyString]
           | piece :: more => String c piece :: more
           end
  end.

(** A template written as its pieces with one marker text between two
    consecutive pieces. *)
Fixpoint weave (pieces marks : list string) : string :=
  match pieces with
  | [] => EmptyString
  | piece :: more =>
      match marks with
      | [] => piece
      | mark :: marks' => piece ++ mark ++ weave more marks'
      end
  end.

(** The text of the numbered marker [:n]. *)
Definition marker (n : Z) : string := pref ++ Go.Itoa n.

(** The numbers [n], [n+1], ... of [k] consecutive markers. *)
Fixpoint marker_numbers (n : Z) (k : nat) : list Z :=
  match k with
  | O => []
  | S k' => n :: marker_numbers (n + 1) k'
  end.

Example Itoa_0 : Go.Itoa 0 = "0". Proof. reflexivity. Qed.
Example Itoa_10 : Go.Itoa 10 = "10". Proof. reflexivity. Qed.
Example Itoa_neg : Go.Itoa (-305) = "-305". Proof. reflexivity. Qed.
Example q_three :
  q "a = ? AND b > ? OR c = ?" = "a = :1 AND b > :2 OR c = :3".
Proof. reflexivity. Qed.
Example segments_three :
  segments "a = ? AND b > ??" = ["a = "; " AND b > "; ""; ""].
Proof. reflexivity. Qed.
Example ParseUint_ok : Go.ParseUint "12" = (12, None).
Proof. reflexivity. Qed.
Example ParseUint_max :
  Go.ParseUint "18446744073709551615" = (Go.MaxUint64, None).
Proof. vm_compute. reflexivity. Qed.
Example ParseUint_range :
  Go.ParseUint "18446744073709551616" = (Go.MaxUint64, Some Go.ErrRange).
Proof. vm_compute. reflexivity. Qed.
Example ParseUint_range_first :
  Go.ParseUint "99999999999999999999999x" = (Go.MaxUint64, Some Go.ErrRange).
Proof. vm_compute. reflexivity. Qed.
Example ParseUint_sign : Go.ParseUint "+1" = (0, Some Go.ErrSyntax).
Proof. reflexivity. Qed.
Example ParseUint_empty : Go.ParseUint "" = (0, Some Go.ErrSyntax).
Proof. reflexivity. Qed.


(** ** The [kine] table and the query templates as relational queries *)

(** One row of the table created by [schema].  [id] is the primary key;
    [value] and [old_value] are BLOBs.  Oracle stores the empty string as
    NULL, so the empty [name] stands for a NULL name.  The INTEGER columns
    hold a value in every row; a NULL in one of them is not modelled. *)
Record Row := mkRow {
  id : Z;
  name : string;
  created : Z;
  deleted : Z;
  create_revision : Z;
  prev_revision : Z;
  lease : Z;
  value : string;
  old_value : string
}.

Definition Table := list Row.

(** The constraint [kine_pk PRIMARY KEY (id)]. *)
Definition primary_key (kine : Table) : Prop := NoDup (map id kine).

(** A row of a result set with the select list
    [(revSQL), (compactRevSQL), columns]. *)
Record Result := mkResult {
  current_rev : option Z;
  compact_rev : option Z;
  record : Row
}.

(** The aggregate [MAX], NULL over no rows. *)
Fixpoint MAX (xs : list Z) : option Z :=
  match xs with
  | [] => None
  | x :: rest =>
      match MAX rest with
      | None => Some x
      | Some m => Some (Z.max x m)
      end
  end.

(** [CHR(1)] *)
Definition CHR1 : string := String (ascii_of_nat 1) EmptyString.

(** [NVL(x, d)]: [d] when [x] is NULL. *)
Definition NVL (x d : string) : string :=
  if String.eqb x EmptyString then d else x.

(** The pattern language of [LIKE] without an [ESCAPE] clause: [%] stands
    for any run of characters, [_] for one character. *)
Fixpoint like_match (pattern : string) : string -> bool :=
  match pattern with
  | EmptyString =>
      fun s => match s with EmptyString => true | _ => false end
  | String p rest =>
      if Ascii.eqb p "%" then
        fix skip (s : string) : bool :=
          (like_match rest s ||
           match s with
           | EmptyString => false
           | String _ s' => skip s'
           end)%bool
      else if Ascii.eqb p "_" then
        fun s =>
          match s with
          | EmptyString => false
          | String _ s' => like_match rest s'
          end
      else
        fun s =>
          match s with
          | EmptyString => false
          | String c s' => (Ascii.eqb c p && like_match rest s')%bool
          end
  end.

(** [x LIKE pattern] as a condition of a WHERE clause: a NULL operand
    makes it unknown, which selects nothing. *)
Definition LIKE (x pattern : string) : bool :=
  if String.eqb x EmptyString then false
  else if String.eqb pattern EmptyString then false
  else like_match pattern x.

(** [x > y] on VARCHAR2 values, compared byte by byte.  No string is
    smaller than the empty one, so a NULL [x] selects nothing here too. *)
Definition GT (x y : string) : bool :=
  if String.eqb y EmptyString then false else String.ltb y x.

(** [ORDER BY] as a stable insertion sort on the order [le]. *)
Fixpoint insert_by {A : Type} (le : A -> A -> bool) (x : A) (l : list A) : list A :=
  match l with
  | [] => [x]
  | y :: rest => if le x y then x :: l else y :: insert_by le x rest
  end.

Fixpoint order_by {A : Type} (le : A -> A -> bool) (l : list A) : list A :=
  match l with
  | [] => []
  | x :: rest => insert_by le x (order_by le rest)
  end.

(** [revSQL]: SELECT MAX(rkv.id) AS id FROM kine rkv *)
Definition revSQL (kine : Table) : option Z := MAX (map id kine).

(** [compactRevSQL]: SELECT MAX(crkv.prev_revision) AS prev_revision
    FROM kine crkv WHERE crkv.name = 'compact_rev_key' *)
Definition compactRevSQL (kine : Table) : option Z :=
  MAX (map prev_revision
         (filter (fun crkv => String.eqb (name crkv) "compact_rev_key") kine)).

(** The select list [(revSQL), (compactRevSQL), columns] for a row [kv]. *)
Definition select (kine : Table) (kv : Row) : Result :=
  mkResult (revSQL kine) (compactRevSQL kine) kv.

(** The keys of [GROUP BY mkv.name]: the distinct names of the rows. *)
Definition group_names (rows : list Row) : list string :=
  nodup string_dec (map name rows).

(** The subquery [maxkv] of [listSQL]:
    SELECT MAX(mkv.id) AS id FROM kine mkv WHERE mkv.name LIKE ? %s
    GROUP BY mkv.name, where [extra] is the condition spliced in for
    [%s]. *)
Definition maxkv (extra : Row -> bool) (kine : Table) (pattern : string)
  : list (option Z) :=
  let rows := filter (fun mkv => (LIKE (name mkv) pattern && extra mkv)%bool) kine in
  map (fun n => MAX (map id (filter (fun mkv => String.eqb (name mkv) n) rows)))
      (group_names rows).

(** [maxkv.id = kv.id] *)
Definition on_id (m : option Z) (kv : Row) : bool :=
  match m with
  | Some i => i =? id kv
  | None => false
  end.

(** kine kv JOIN (...) maxkv ON maxkv.id = kv.id *)
Definition join (kine : Table) (maxes : list (option Z)) : list Row :=
  flat_map (fun kv => flat_map (fun m => if on_id m kv then [kv] else []) maxes)
           kine.

(** The condition [kv.deleted = 0 OR kv.deleted = ?]. *)
Definition visible (flag : Z) (kv : Row) : bool :=
  ((deleted kv =? 0) || (deleted kv =? flag))%bool.

(** [listSQL] with the condition [extra] in place of [%s]; its bind
    parameters are the pattern, those of [extra], and the deleted flag. *)
Definition listSQL (extra : Row -> bool) (kine : Table) (pattern : string)
  (flag : Z) : list Result :=
  let lkv :=
    map (select kine)
        (filter (visible flag) (join kine (maxkv extra kine pattern))) in
  order_by (fun a b => String.leb (name (record a)) (name (record b))) lkv.

(** [GetCurrentSQL]: listSQL with "AND mkv.name > NVL(?, CHR(1))" *)
Definition GetCurrentSQL (kine : Table) (pattern startKey : string) (flag : Z)
  : list Result :=
  listSQL (fun mkv => GT (name mkv) (NVL startKey CHR1)) kine pattern flag.

(** [ListRevisionStartSQL]: listSQL with "AND mkv.id <= ?" *)
Definition ListRevisionStartSQL (kine : Table) (pattern : string) (R flag : Z)
  : list Result :=
  listSQL (fun mkv => id mkv <=? R) kine pattern flag.

(** [GetRevisionAfterSQL]: listSQL with "AND mkv.name > ? AND mkv.id <= ?" *)
Definition GetRevisionAfterSQL (kine : Table) (pattern startKey : string)
  (R flag : Z) : list Result :=
  listSQL (fun mkv => (GT (name mkv) startKey && (id mkv <=? R))%bool)
          kine pattern flag.

(** [AfterSQL]: SELECT (revSQL), (compactRevSQL), columns FROM kine kv
    WHERE kv.name LIKE ? AND kv.id > ? ORDER BY kv.id ASC *)
Definition AfterSQL (kine : Table) (pattern : string) (F : Z) : list Result :=
  order_by (fun a b => id (record a) <=? id (record b))
    (map (select kine)
       (filter (fun kv => (LIKE (name kv) pattern && (F <? id kv))%bool) kine)).

(** The table as it was when its largest id was at most [R]. *)
Definition as_of (R : Z) (kine : Table) : Table :=
  filter (fun kv => id kv <=? R) kine.

(** [kv] is selected by the pattern and [extra], and no selected row of
    the same name has a larger id. *)
Definition latest (extra : Row -> bool) (kine : Table) (pattern : string)
  (kv : Row) : bool :=
  (LIKE (name kv) pattern && extra kv &&
   forallb (fun mkv =>
              negb (LIKE (name mkv) pattern && extra mkv &&
                    String.eqb (name mkv) (name kv))
              || (id mkv <=? id kv)) kine)%bool.

(** The order of [ORDER BY thename ASC] on Record columns. *)
Definition le_name (a b : Row) : bool := String.leb (name a) (name b).

(** The order of [ORDER BY kv.id ASC] on Record columns. *)
Definition le_id (a b : Row) : bool := id a <=? id b.

(** The first claim about the current-state list, as the specification
    words it: every name that matches the pattern and has a row that is
    not deleted, or deleted as the flag says, gets the row with the largest
    id among those rows. *)
Definition newest_visible (kine : Table) (flag : Z) (kv : Row) : Prop :=
  In kv kine /\ visible flag kv = true /\
  forall other, In other kine -> name other = name kv ->
    visible flag other = true -> id other <= id kv.

Definition lists_newest_visible (kine : Table) (pattern startKey : string)
  (flag : Z) : Prop :=
  forall kv, LIKE (name kv) pattern = true -> newest_visible kine flag kv ->
    In kv (map record (GetCurrentSQL kine pattern startKey flag)).

(** A row with the given id, name and deleted flag, for examples. *)
Definition sample (i : Z) (n : string) (del : Z) : Row :=
  mkRow i n 0 del 0 0 0 EmptyString EmptyString.

Example like_prefix : LIKE "/registry/pods/a" "/registry/%" = true.
Proof. reflexivity. Qed.
Example like_one : LIKE "ab" "a_" = true /\ LIKE "a" "a_" = false.
Proof. split; reflexivity. Qed.
Example like_null : LIKE "" "%" = false.
Proof. reflexivity. Qed.
Example current_two_puts :
  map record
    (GetCurrentSQL [mkRow 1 "a" 1 0 1 0 0 "v1" ""; mkRow 2 "a" 0 0 1 1 0 "v2" "v1"]
       "a%" "" 0)
  = [mkRow 2 "a" 0 0 1 1 0 "v2" "v1"].
Proof. reflexivity. Qed.
Example current_sorted :
  map (fun r => name (record r))
    (GetCurrentSQL [sample 1 "b" 0; sample 2 "a" 0; sample 3 "c" 0] "%" "" 0)
  = ["a"; "b"; "c"].
Proof. reflexivity. Qed.
Example current_start_key :
  map (fun r => name (record r))
    (GetCurrentSQL [sample 1 "b" 0; sample 2 "a" 0; sample 3 "c" 0] "%" "a" 0)
  = ["b"; "c"].
Proof. reflexivity. Qed.
Example current_tombstone_shown :
  map (fun r => id (record r))
    (GetCurrentSQL [sample 1 "a" 0; sample 2 "a" 1] "%" "" 1) = [2].
Proof. reflexivity. Qed.
Example after_all_versions :
  map (fun r => id (record r))
    (AfterSQL [sample 3 "a" 0; sample 1 "a" 0; sample 2 "a" 0] "%" 1)
  = [2; 3].
Proof. reflexivity. Qed.

(** ** The templates as texts *)

Module Text.

(** [fmt.Sprintf] for a format that uses the verbs [%s] and [%%] only; a
    verb without an argument prints as Go prints it. *)
Fixpoint Sprintf (format : string) (args : list string) : string :=
  match format with
  | EmptyString => EmptyString
  | String c rest =>
      if Ascii.eqb c "%" then
        match rest with
        | EmptyString => "%!(NOVERB)"
        | String d rest' =>
            if Ascii.eqb d "s" then
              match args with
              | a :: args' => a ++ Sprintf rest' args'
              | [] => "%!s(MISSING)" ++ Sprintf rest' []
              end
            else if Ascii.eqb d "%" then String "%" (Sprintf rest' args)
            else String c (String d (Sprintf rest' args))
        end
      else String c (Sprintf rest args)
  end.

Definition columns : string :=
  "kv.id AS theid, kv.name AS thename, kv.created, kv.deleted, kv.create_revision, kv.prev_revision, kv.lease, kv.value, kv.old_value".

Definition revSQL : string :=
  "
		SELECT MAX(rkv.id) AS id
		FROM kine rkv".

Definition compactRevSQL : string :=
  "
		SELECT MAX(crkv.prev_revision) AS prev_revision
		FROM kine crkv
		WHERE crkv.name = 'compact_rev_key'".

Definition listSQL : string :=
  Sprintf "
		SELECT *
		FROM (
			SELECT (%s), (%s), %s
			FROM kine kv
			JOIN (
				SELECT MAX(mkv.id) AS id
				FROM kine mkv
				WHERE
					mkv.name LIKE ?
					%%s
				GROUP BY mkv.name) maxkv
				ON maxkv.id = kv.id
			WHERE
				kv.deleted = 0 OR
				kv.deleted = ?
		) lkv
		ORDER BY lkv.thename ASC
		"
    [revSQL; compactRevSQL; columns].

Record Dialect := mkDialect {
  GetRevisionSQL : string;
  GetCurrentSQL : string;
  ListRevisionStartSQL : string;
  GetRevisionAfterSQL : string;
  CountCurrentSQL : string;
  CountRevisionSQL : string;
  AfterSQL : string;
  DeleteSQL : string;
  LimitSQL : string;
  RevisionSQL : string;
  CompactRevisionSQL : string;
  InsertReturningInto : bool
}.

(** The templates that [New] stores in the dialect. *)
Definition dialect : Dialect := {|
  GetRevisionSQL := q (Sprintf "
			SELECT
			0, 0, %s
			FROM kine kv
			WHERE kv.id = ?" [columns]);
  GetCurrentSQL := q (Sprintf listSQL ["AND mkv.name > NVL(?, CHR(1))"]);
  ListRevisionStartSQL := q (Sprintf listSQL ["AND mkv.id <= ?"]);
  GetRevisionAfterSQL := q (Sprintf listSQL ["AND mkv.name > ? AND mkv.id <= ?"]);
  CountCurrentSQL :=
    q (Sprintf "
			SELECT (%s), (SELECT COUNT(c.theid)
			FROM (
				%s
			) c) FROM dual"
         [revSQL; Sprintf listSQL ["AND mkv.name > NVL(?, CHR(1))"]]);
  CountRevisionSQL :=
    q (Sprintf "
			SELECT (%s), (SELECT COUNT(c.theid)
			FROM (
				%s
			) c) FROM dual"
         [revSQL; Sprintf listSQL ["AND mkv.name > NVL(?, CHR(1)) AND mkv.id <= ?"]]);
  AfterSQL := q (Sprintf "
			SELECT (%s), (%s), %s
			FROM kine kv
			WHERE
				kv.name LIKE ? AND
				kv.id > ?
			ORDER BY kv.id ASC"
                   [revSQL; compactRevSQL; columns]);
  DeleteSQL := q "
			DELETE FROM kine kv
			WHERE kv.id = ?";
  LimitSQL := "%s FETCH FIRST %d ROWS ONLY";
  RevisionSQL := revSQL;
  CompactRevisionSQL := compactRevSQL;
  InsertReturningInto := true
|}.

End Text.

Example listSQL_has_two_markers :
  count_markers (Text.Sprintf Text.listSQL [""]) = 2%nat.
Proof. vm_compute. reflexivity. Qed.
Example GetCurrentSQL_binds :
  segments (Text.Sprintf "a LIKE ? %s AND d = ?" ["AND n > NVL(?, CHR(1))"])
  = ["a LIKE "; " AND n > NVL("; ", CHR(1)) AND d = "; ""] /\
  q (Text.Sprintf "a LIKE ? %s AND d = ?" ["AND n > NVL(?, CHR(1))"])
  = "a LIKE :1 AND n > NVL(:2, CHR(1)) AND d = :3".
Proof. split; reflexivity. Qed.
Example ListRevisionStartSQL_markers :
  count_markers (Text.Sprintf Text.listSQL ["AND mkv.id <= ?"]) = 3%nat /\
  count_markers (Text.ListRevisionStartSQL Text.dialect) = 0%nat.
Proof. vm_compute. split; reflexivity. Qed.
Example DeleteSQL_text :
  Text.DeleteSQL Text.dialect = "
			DELETE FROM kine kv
			WHERE kv.id = :1".
Proof. reflexivity. Qed.

(** ** Errors and the error classifier *)

(** The values of Go's [error] that the driver tells apart;
    [option error] is an [error] that may be [nil]. *)
Inductive error :=
| OracleError (ErrCode : Z) (ErrMsg : string)
| ErrKeyExists
| ErrNoRows
| OtherError (text : string).

(** [dialect.TranslateErr] *)
Definition TranslateErr (err : option error) : option error :=
  match err with
  | Some (OracleError ErrCode _) =>
      if ErrCode =? 1 then Some ErrKeyExists else err
  | _ => err
  end.

Example TranslateErr_nil : TranslateErr None = None.
Proof. reflexivity. Qed.
Example TranslateErr_unique :
  TranslateErr (Some (OracleError 1 "ORA-00001: unique constraint violated"))
  = Some ErrKeyExists.
Proof. reflexivity. Qed.
Example TranslateErr_other_code :
  TranslateErr (Some (OracleError 955 "ORA-00955"))
  = Some (OracleError 955 "ORA-00955").
Proof. reflexivity. Qed.

(** ** The schema installer *)

Definition schema : list string := [

  "CREATE TABLE kine
			(
				id INTEGER GENERATED BY DEFAULT AS IDENTITY,
				name VARCHAR2(630),
				created INTEGER,
				deleted INTEGER,
				create_revision INTEGER,
				prev_revision INTEGER,
				lease INTEGER,
				value BLOB,
				old_value BLOB,
				CONSTRAINT kine_pk PRIMARY KEY (id)
			)";
  "CREATE INDEX kine_name_index ON kine (name)";
  "CREATE INDEX kine_name_id_index ON kine (name,id)";
  "CREATE INDEX kine_id_deleted_index ON kine (id,deleted)";
  "CREATE INDEX kine_prev_revision_index ON kine (prev_revision)";
  "CREATE UNIQUE INDEX kine_name_prev_revision_uindex ON kine (name, prev_revision)"

].

Definition schemaMigrations : list string := [ EmptyString; EmptyString ].

(** What [Scan(&exists)] does: it stores the scanned value and returns
    nil, or leaves [exists] as it is and returns an error, which is
    [sql.ErrNoRows] when the query has no row. *)
Inductive Scan :=
| Scanned (value : bool)
| ScanFailed (err : error).

(** The database behind [*sql.DB], as far as the installer uses it: the
    state of the backend, the existence query
    "SELECT 1 FROM USER_TABLES WHERE table_name = :1" with "KINE", which
    reads the state, [db.Exec], which may change it and may fail, and the
    [Migrate] step of the generic dialect, whose code is not part of the
    driver. *)
Record Backend := mkBackend {
  DB : Type;
  table_exists : DB -> Scan;
  Exec : string -> DB -> DB * option error;
  Migrate : DB -> DB
}.

(** A run of the installer: the state it leaves, the statements it passed
    to [db.Exec] with their results, in order, the error it returns and
    whether it logged the warning about the existence check. *)
Record Run (B : Backend) := mkRun {
  final : DB B;
  executed : list (string * option error);
  returned : option error;
  warned : bool
}.
Arguments mkRun {B}.
Arguments final {B}.
Arguments executed {B}.
Arguments returned {B}.
Arguments warned {B}.

Definition done {B : Backend} (db : DB B) : Run B := mkRun db [] None false.

Definition after {B : Backend} (stmt : string) (rest : Run B) : Run B :=
  mkRun (final rest) ((stmt, None) :: executed rest) (returned rest) (warned rest).

Definition failed {B : Backend} (stmt : string) (db : DB B) (e : error) : Run B :=
  mkRun db [(stmt, Some e)] (Some e) false.

(** for _, stmt := range schema { if _, err := db.Exec(stmt); err != nil
    { return err } } *)
Fixpoint create (B : Backend) (stmts : list string) (db : DB B) : Run B :=
  match stmts with
  | [] => done db
  | stmt :: rest =>
      match Exec B stmt db with
      | (db', Some e) => failed stmt db' e
      | (db', None) => after stmt (create B rest db')
      end
  end.

(** The loop over [schemaMigrations] from the index [i] on, with
    [limit] for [int(schemaVersion)]. *)
Fixpoint migrate (B : Backend) (i : Z) (stmts : list string) (limit : Z)
  (db : DB B) : Run B :=
  match stmts with
  | [] => done db
  | stmt :: rest =>
      if limit <=? i then done db
      else if String.eqb stmt EmptyString then migrate B (i + 1) rest limit db
      else
        match Exec B stmt db with
        | (db', Some e) => failed stmt db' e
        | (db', None) => after stmt (migrate B (i + 1) rest limit db')
        end
  end.

(** [exists] after the existence check. *)
Definition exists_after (s : Scan) : bool :=
  match s with
  | Scanned value => value
  | ScanFailed _ => false
  end.

(** err != nil && err != sql.ErrNoRows *)
Definition warns (s : Scan) : bool :=
  match s with
  | Scanned _ => false
  | ScanFailed ErrNoRows => false
  | ScanFailed _ => true
  end.

(** The desired schema version: the value that [strconv.ParseUint] returns
    for the environment variable KINE_SCHEMA_MIGRATION, its error being
    dropped. *)
Definition schemaVersion (env : option string) : Z :=
  fst (Go.ParseUint (Go.Getenv env)).

(** [setup], with [env] for the value of KINE_SCHEMA_MIGRATION. *)
Definition setup (B : Backend) (env : option string) (db : DB B) : Run B :=
  let check := table_exists B db in
  let created := if exists_after check then done db else create B schema db in
  match returned created with
  | Some e => mkRun (final created) (executed created) (Some e) (warns check)
  | None =>
      let migrated :=
        migrate B 0 schemaMigrations (Go.int_of_uint64 (schemaVersion env))
                (final created) in
      mkRun (final migrated) (executed created ++ executed migrated)
            (returned migrated) (warns check)
  end.

(** What [New] returns: whether the backend is to be used, the backend,
    and the error. *)
Record Started (B : Backend) := mkStarted {
  ok : bool;
  backend : option (Text.Dialect * DB B);
  err : option error
}.
Arguments mkStarted {B}.
Arguments ok {B}.
Arguments backend {B}.
Arguments err {B}.

(** [New], with [opened] for what [generic.Open] returns: an error or the
    handle of the database. *)
Definition New (B : Backend) (opened : error + DB B) (env : option string)
  : Started B :=
  match opened with
  | inl e => mkStarted false None (Some e)
  | inr db =>
      let run := setup B env db in
      match returned run with
      | Some e => mkStarted false None (Some e)
      | None => mkStarted true (Some (Text.dialect, Migrate B (final run))) None
      end
  end.

(** The migration statements that the specification selects for the
    version [V]: those of an index below [V] that are not empty, in
    order; [i] is the index of the first statement of [stmts]. *)
Fixpoint selected_migrations (i : Z) (stmts : list string) (V : Z) : list string :=
  match stmts with
  | [] => []
  | stmt :: rest =>
      if ((i <? V) && negb (String.eqb stmt EmptyString))%bool
      then stmt :: selected_migrations (i + 1) rest V
      else selected_migrations (i + 1) rest V
  end.


(** A backend that keeps the statements it has executed: a statement that
    was executed before fails with ORA-00955, and the table exists once
    its CREATE TABLE statement was executed. *)
Definition catalog : Backend := {|
  DB := list string;
  table_exists := fun db =>
    if existsb (String.eqb (hd EmptyString schema)) db
    then Scanned true else ScanFailed ErrNoRows;
  Exec := fun stmt db =>
    if existsb (String.eqb stmt) db
    then (db, Some (OracleError 955 "ORA-00955: name is already used by an existing object"))
    else (stmt :: db, None);
  Migrate := fun db => db
|}.

(** The same backend with an existence check that always fails. *)
Definition unreadable : Backend := {|
  DB := list string;
  table_exists := fun _ => ScanFailed (OtherError "ORA-03113: end-of-file on communication channel");
  Exec := Exec catalog;
  Migrate := fun db => db
|}.

Example setup_fresh :
  map fst (executed (setup catalog None [])) = schema /\
  returned (setup catalog None []) = None.
Proof. vm_compute. split; reflexivity. Qed.
Example setup_unreadable_existing :
  let db := final (setup catalog None []) in
  map fst (executed (setup unreadable None db)) = [hd EmptyString schema] /\
  returned (setup unreadable None db)
  = Some (OracleError 955 "ORA-00955: name is already used by an existing object") /\
  warned (setup unreadable None db) = true.
Proof. vm_compute. repeat split; reflexivity. Qed.
Example migrate_two_of_four :
  map fst (executed (migrate catalog 0
                       [""; "ALTER TABLE kine ADD a INTEGER"; "";
                        "ALTER TABLE kine ADD b INTEGER"] 2 []))
  = ["ALTER TABLE kine ADD a INTEGER"] /\
  selected_migrations 0 [""; "ALTER TABLE kine ADD a INTEGER"; "";
                         "ALTER TABLE kine ADD b INTEGER"] 2
  = ["ALTER TABLE kine ADD a INTEGER"].
Proof. split; reflexivity. Qed.
Example migrate_huge_version :
  Go.int_of_uint64 (2 ^ 63) = - 2 ^ 63 /\
  executed (migrate catalog 0 ["ALTER TABLE kine ADD a INTEGER"]
              (Go.int_of_uint64 (2 ^ 63)) []) = [].
Proof. split; reflexivity. Qed.
Example schemaVersion_unset : schemaVersion None = 0.
Proof. reflexivity. Qed.
Example schemaVersion_garbage : schemaVersion (Some "two") = 0.
Proof. reflexivity. Qed.

(** ** The other queries and functions of the dialect *)

(** The aggregate [COUNT] over the rows of a subquery whose counted column
    is never NULL. *)
Definition COUNT {A : Type} (rows : list A) : Z := Z.of_nat (List.length rows).

(** [GetRevisionSQL]: SELECT 0, 0, columns FROM kine kv WHERE kv.id = ? *)
Definition GetRevisionSQL (kine : Table) (rev : Z) : list Result :=
  map (mkResult (Some 0) (Some 0)) (filter (fun kv => id kv =? rev) kine).

(** [CountCurrentSQL]: SELECT (revSQL), (SELECT COUNT(c.theid) FROM
    (listSQL with "AND mkv.name > NVL(?, CHR(1))") c) FROM dual.  The one
    row it returns is the pair of its two columns. *)
Definition CountCurrentSQL (kine : Table) (pattern startKey : string) (flag : Z)
  : option Z * Z :=
  (revSQL kine,
   COUNT (listSQL (fun mkv => GT (name mkv) (NVL startKey CHR1)) kine pattern flag)).

(** [CountRevisionSQL]: the same with
    "AND mkv.name > NVL(?, CHR(1)) AND mkv.id <= ?" *)
Definition CountRevisionSQL (kine : Table) (pattern startKey : string)
  (R flag : Z) : option Z * Z :=
  (revSQL kine,
   COUNT (listSQL (fun mkv => (GT (name mkv) (NVL startKey CHR1) && (id mkv <=? R))%bool)
            kine pattern flag)).

(** [DeleteSQL]: DELETE FROM kine kv WHERE kv.id = ?, as the table that
    the statement leaves. *)
Definition DeleteSQL (kine : Table) (rev : Z) : Table :=
  filter (fun kv => negb (id kv =? rev)) kine.

(** [dialect.ErrCode], with [Error] for the method [Error()] of the error
    values; [fmt.Sprint] of an [int] is its decimal text. *)
Definition ErrCode (Error : error -> string) (err : option error) : string :=
  match err with
  | None => EmptyString
  | Some (OracleError code _) => Go.Itoa code
  | Some e => Error e
  end.

(** The state that executing the statements [stmts] in order leaves,
    whether they succeed or not. *)
Fixpoint replay (B : Backend) (stmts : list string) (db : DB B) : DB B :=
  match stmts with
  | [] => db
  | stmt :: rest => replay B rest (fst (Exec B stmt db))
  end.

(** The text of a format before and after its first verb. *)
Fixpoint before_verb (format : string) : string :=
  match format with
  | EmptyString => EmptyString
  | String c rest =>
      if Ascii.eqb c "%" then EmptyString else String c (before_verb rest)
  end.

Fixpoint after_verb (format : string) : string :=
  match format with
  | EmptyString => EmptyString
  | String c rest =>
      if Ascii.eqb c "%" then
        match rest with
        | EmptyString => EmptyString
        | String _ rest' => rest'
        end
      else after_verb rest
  end.

(** Whether a text holds a percent sign, the start of a verb. *)
Fixpoint has_verb (s : string) : bool :=
  match s with
  | EmptyString => false
  | String c rest => (Ascii.eqb c "%" || has_verb rest)%bool
  end.

Example GetRevisionSQL_found :
  GetRevisionSQL [sample 1 "a" 0; sample 2 "b" 0] 2
  = [mkResult (Some 0) (Some 0) (sample 2 "b" 0)].
Proof. reflexivity. Qed.
Example GetRevisionSQL_missing :
  GetRevisionSQL [sample 1 "a" 0; sample 2 "b" 0] 3 = [].
Proof. reflexivity. Qed.
Example CountCurrentSQL_two :
  CountCurrentSQL [sample 1 "a" 0; sample 2 "b" 0; sample 3 "a" 0] "%" "" 0
  = (Some 3, 2).
Proof. reflexivity. Qed.
Example CountRevisionSQL_as_of :
  CountRevisionSQL [sample 1 "a" 0; sample 2 "b" 0; sample 3 "c" 0] "%" "" 2 0
  = (Some 3, 2).
Proof. reflexivity. Qed.
Example DeleteSQL_one :
  DeleteSQL [sample 1 "a" 0; sample 2 "b" 0; sample 3 "a" 0] 1
  = [sample 2 "b" 0; sample 3 "a" 0].
Proof. reflexivity. Qed.
Example GetRevisionAfterSQL_cursor :
  map (fun r => name (record r))
    (GetRevisionAfterSQL [sample 1 "a" 0; sample 2 "b" 0; sample 3 "c" 0] "%" "a" 2 0)
  = ["b"].
Proof. reflexivity. Qed.
Example ErrCode_oracle :
  ErrCode (fun _ => "?") (Some (OracleError 955 "ORA-00955")) = "955".
Proof. reflexivity. Qed.
Example listSQL_around_verb :
  Text.listSQL = before_verb Text.listSQL ++ "%s" ++ after_verb Text.listSQL /\
  count_markers (before_verb Text.listSQL) = 1%nat /\
  count_markers (after_verb Text.listSQL) = 1%nat.
Proof. vm_compute. repeat split; reflexivity. Qed.
(** ** Properties of the placeholder translator *)

Lemma int_wrap_small z :
  - 2 ^ 63 <= z <= Go.MaxInt -> Go.int_wrap z = z.
Proof.
  intros Hz. unfold Go.int_wrap, Go.MaxInt in *.
  rewrite Z.mod_small by lia. lia.
Qed.

Lemma count_markers_app s t :
  count_markers (s ++ t) = (count_markers s + count_markers t)%nat.
Proof.
  induction s as [|c s IH]; simpl; [reflexivity|].
  destruct (Ascii.eqb c "?"); simpl; rewrite IH; reflexivity.
Qed.

Lemma uint_text_no_marker d :
  count_markers (NilEmpty.string_of_uint d) = O.
Proof. induction d; simpl; auto. Qed.

Lemma Itoa_no_marker n : count_markers (Go.Itoa n) = O.
Proof.
  unfold Go.Itoa.
  destruct (Z.to_int n) as [d|d]; simpl;
    destruct d; simpl; auto using uint_text_no_marker.
Qed.

Lemma marker_no_marker n : count_markers (marker n) = O.
Proof.
  unfold marker, pref. rewrite count_markers_app, Itoa_no_marker. reflexivity.
Qed.

Lemma replace_all_fixed n s :
  count_markers s = O -> replace_all n s = s.
Proof.
  induction s as [|c s IH]; simpl; [reflexivity|].
  destruct (Ascii.eqb c "?"); [discriminate|].
  intros H. rewrite IH by assumption. reflexivity.
Qed.

Lemma replace_all_no_marker s :
  forall n, count_markers (replace_all n s) = O.
Proof.
  induction s as [|c s IH]; intros n; simpl; [reflexivity|].
  destruct (Ascii.eqb c "?") eqn:E; simpl.
  - rewrite (count_markers_app (Go.Itoa _)), Itoa_no_marker. simpl. apply IH.
  - rewrite E. apply IH.
Qed.

Lemma Itoa_inj a b : Go.Itoa a = Go.Itoa b -> a = b.
Proof.
  unfold Go.Itoa. intros H.
  assert (Hn : forall z, Z.to_int z <> Pos Nil /\ Z.to_int z <> Neg Nil).
  { intros [|p|p]; simpl; split; intros E; try discriminate;
      injection E as E; now apply (Unsigned.to_uint_nonnil p). }
  apply DecimalZ.to_int_inj.
  assert (Some (Z.to_int a) = Some (Z.to_int b)) as E.
  { rewrite <- (NilZero.isi (Z.to_int a)) by apply Hn.
    rewrite <- (NilZero.isi (Z.to_int b)) by apply Hn.
    now rewrite H. }
  now injection E.
Qed.

Lemma marker_inj a b : marker a = marker b -> a = b.
Proof.
  unfold marker, pref. simpl. intros H. injection H as H. now apply Itoa_inj.
Qed.

Lemma segments_nonempty s : segments s <> [].
Proof.
  destruct s as [|c s]; simpl; [discriminate|].
  destruct (Ascii.eqb c "?"); [discriminate|].
  destruct (segments s); discriminate.
Qed.

Lemma segments_length s : List.length (segments s) = S (count_markers s).
Proof.
  induction s as [|c s IH]; simpl; [reflexivity|].
  destruct (Ascii.eqb c "?"); simpl; [now rewrite IH|].
  destruct (segments s); simpl in *; [discriminate|assumption].
Qed.

Lemma segments_clean s :
  Forall (fun piece => count_markers piece = O) (segments s).
Proof.
  induction s as [|c s IH]; simpl.
  - repeat constructor.
  - destruct (Ascii.eqb c "?") eqn:E.
    + constructor; [reflexivity | assumption].
    + destruct (segments s) as [|piece more].
      * repeat constructor. simpl. now rewrite E.
      * inversion IH; subst. constructor; [|assumption].
        simpl. now rewrite E.
Qed.

Lemma weave_generic s :
  weave (segments s) (repeat "?" (count_markers s)) = s.
Proof.
  induction s as [|c s IH]; simpl; [reflexivity|].
  destruct (Ascii.eqb_spec c "?") as [->|Hc]; simpl.
  - now rewrite IH.
  - pose proof (segments_length s) as Hl.
    destruct (segments s) as [|piece more]; [discriminate|].
    simpl in *. destruct (count_markers s); simpl in *; now rewrite <- IH.
Qed.

Lemma replace_all_weave s :
  forall n, 0 <= n -> n + Z.of_nat (count_markers s) <= Go.MaxInt ->
    replace_all n s =
    weave (segments s) (map marker (marker_numbers (n + 1) (count_markers s))).
Proof.
  induction s as [|c s IH]; intros n Hn Hb; simpl; [reflexivity|].
  destruct (Ascii.eqb c "?") eqn:E; simpl.
  - simpl in Hb. rewrite E in Hb.
    rewrite int_wrap_small by (unfold Go.MaxInt in *; lia).
    rewrite IH by lia. reflexivity.
  - simpl in Hb. rewrite E in Hb. rewrite IH by lia.
    pose proof (segments_length s) as Hl.
    destruct (segments s) as [|piece more]; [discriminate|].
    simpl. destruct (count_markers s); reflexivity.
Qed.

Lemma count_markers_le_length s :
  (count_markers s <= String.length s)%nat.
Proof.
  induction s as [|c s IH]; simpl; [lia|].
  destruct (Ascii.eqb c "?"); lia.
Qed.

Lemma marker_numbers_bounds k :
  forall n x, In x (marker_numbers n k) -> n <= x < n + Z.of_nat k.
Proof.
  induction k as [|k IH]; intros n x; simpl; [tauto|].
  intros [<-|Hx]; [lia|]. apply IH in Hx. lia.
Qed.

Lemma marker_numbers_length k :
  forall n, List.length (marker_numbers n k) = k.
Proof.
  induction k as [|k IH]; intros n; simpl; [reflexivity | now rewrite IH].
Qed.

Lemma marker_numbers_nth k :
  forall n i, (i < k)%nat -> nth i (marker_numbers n k) 0 = n + Z.of_nat i.
Proof.
  induction k as [|k IH]; intros n i Hi; [lia|].
  destruct i as [|i]; simpl; [lia|].
  rewrite IH by lia. lia.
Qed.

Lemma marker_numbers_increasing k :
  forall n, StronglySorted Z.lt (marker_numbers n k).
Proof.
  induction k as [|k IH]; intros n; simpl; constructor; [apply IH|].
  apply Forall_forall. intros x Hx. apply marker_numbers_bounds in Hx. lia.
Qed.

Lemma increasing_NoDup l : StronglySorted Z.lt l -> NoDup l.
Proof.
  induction 1 as [|x l Hs IH Hx]; constructor; [|assumption].
  intros Hin. rewrite Forall_forall in Hx. specialize (Hx x Hin). lia.
Qed.

Lemma NoDup_map_marker l : NoDup l -> NoDup (map marker l).
Proof.
  induction 1 as [|x l Hx Hnd IH]; simpl; constructor; [|assumption].
  rewrite in_map_iff. intros (y & Hy & Hin).
  apply marker_inj in Hy. now subst.
Qed.

(** C2.  A template is its pieces woven with one generic marker between
    consecutive pieces; [q] returns the same pieces woven with the markers
    [:1], [:2], ..., [:k] in this order, where [k] is the number of generic
    markers.  The pieces hold no generic marker, the [i]-th marker carries
    the number [i], the numbers increase strictly from left to right and
    no two marker texts are equal.  The counter of [q] is an [int]; a
    template is a Go string, whose length is an [int] too. *)
Theorem q_numbers_markers (sql : string) :
  Go.len sql <= Go.MaxInt ->
  let pieces := segments sql in
  let k := count_markers sql in
  let numbers := marker_numbers 1 k in
  sql = weave pieces (repeat "?" k) /\
  q sql = weave pieces (map marker numbers) /\
  Forall (fun piece => count_markers piece = O) pieces /\
  List.length pieces = S k /\
  List.length numbers = k /\
  (forall i, (i < k)%nat -> nth i numbers 0 = Z.of_nat i + 1) /\
  StronglySorted Z.lt numbers /\
  NoDup (map marker numbers).
Proof.
  intros Hlen pieces k numbers. subst pieces k numbers.
  pose proof (count_markers_le_length sql) as Hc. unfold Go.len in Hlen.
  split; [symmetry; apply weave_generic|].
  split; [unfold q; rewrite replace_all_weave by lia; reflexivity|].
  split; [apply segments_clean|].
  split; [apply segments_length|].
  split; [apply marker_numbers_length|].
  split; [intros i Hi; rewrite marker_numbers_nth by assumption; lia|].
  split; [apply marker_numbers_increasing|].
  apply NoDup_map_marker, increasing_NoDup, marker_numbers_increasing.
Qed.

Lemma q_numbers_markers_witness :
  Go.len "x = ? AND y > ? AND z <= ?" <= Go.MaxInt /\
  q "x = ? AND y > ? AND z <= ?" =
  weave ["x = "; " AND y > "; " AND z <= "; ""] [":1"; ":2"; ":3"].
Proof.
  split; [vm_compute; discriminate|].
  apply (q_numbers_markers "x = ? AND y > ? AND z <= ?").
  vm_compute; discriminate.
Defined.

(** C10.  The text returned by [q] holds no generic marker, so [q] leaves
    it as it is: [q] is idempotent. *)
Theorem q_idempotent (sql : string) :
  count_markers (q sql) = O /\ q (q sql) = q sql.
Proof.
  unfold q. split; [apply replace_all_no_marker|].
  apply replace_all_fixed, replace_all_no_marker.
Qed.

(** ** Lists, orders and aggregates *)

Section OrderBy.

Context {A : Type}.
Variable le : A -> A -> bool.
Hypothesis le_total : forall x y, le x y = true \/ le y x = true.
Hypothesis le_trans : forall x y z, le x y = true -> le y z = true -> le x z = true.

Let Le (x y : A) : Prop := le x y = true.

Lemma insert_by_perm x l : Permutation (insert_by le x l) (x :: l).
Proof.
  induction l as [|y l IH]; simpl; [reflexivity|].
  destruct (le x y); [reflexivity|].
  rewrite IH. apply perm_swap.
Qed.

Lemma order_by_perm l : Permutation (order_by le l) l.
Proof.
  induction l as [|x l IH]; simpl; [reflexivity|].
  rewrite insert_by_perm. now constructor.
Qed.

Lemma insert_by_sorted x l :
  StronglySorted Le l -> StronglySorted Le (insert_by le x l).
Proof.
  induction 1 as [|y l Hs IH Hy]; simpl.
  - repeat constructor.
  - destruct (le x y) eqn:E.
    + constructor; [now constructor|].
      constructor; [exact E|].
      eapply Forall_impl; [|exact Hy]. intros z Hz. now apply (le_trans x y z).
    + constructor; [assumption|].
      eapply Permutation_Forall; [symmetry; apply insert_by_perm|].
      constructor; [|assumption].
      destruct (le_total x y) as [H|H]; [congruence|exact H].
Qed.

Lemma order_by_sorted l : StronglySorted Le (order_by le l).
Proof.
  induction l as [|x l IH]; simpl; [constructor|now apply insert_by_sorted].
Qed.

Lemma insert_by_least x l : Forall (Le x) l -> insert_by le x l = x :: l.
Proof.
  destruct 1 as [|y l Hy _]; simpl; [reflexivity|].
  unfold Le in Hy. now rewrite Hy.
Qed.

(** The sort is stable, so that a selection may be made before or after
    it. *)
Lemma filter_insert_by (keep : A -> bool) x l :
  StronglySorted Le l ->
  filter keep (insert_by le x l) =
  if keep x then insert_by le x (filter keep l) else filter keep l.
Proof.
  induction 1 as [|y l Hs IH Hy]; simpl.
  - destruct (keep x); reflexivity.
  - destruct (le x y) eqn:E; simpl.
    + destruct (keep x) eqn:Kx; [|reflexivity].
      rewrite insert_by_least; [reflexivity|].
      assert (Forall (Le x) (y :: l)) as Hall.
      { constructor; [exact E|].
        eapply Forall_impl; [|exact Hy]. intros z Hz. now apply (le_trans x y z). }
      change (Forall (Le x) (filter keep (y :: l))).
      rewrite Forall_forall in *. intros z Hz. apply filter_In in Hz.
      now apply Hall.
    + rewrite IH. destruct (keep y) eqn:Ky, (keep x) eqn:Kx; simpl;
        rewrite ?E; reflexivity.
Qed.

Lemma filter_order_by (keep : A -> bool) l :
  filter keep (order_by le l) = order_by le (filter keep l).
Proof.
  induction l as [|x l IH]; simpl; [reflexivity|].
  rewrite filter_insert_by by apply order_by_sorted.
  rewrite IH. destruct (keep x); reflexivity.
Qed.

End OrderBy.

Lemma map_insert_by {A B : Type} (f : A -> B) (le : B -> B -> bool) x l :
  map f (insert_by (fun a b => le (f a) (f b)) x l) = insert_by le (f x) (map f l).
Proof.
  induction l as [|y l IH]; simpl; [reflexivity|].
  destruct (le (f x) (f y)); simpl; [reflexivity|now rewrite IH].
Qed.

Lemma map_order_by {A B : Type} (f : A -> B) (le : B -> B -> bool) l :
  map f (order_by (fun a b => le (f a) (f b)) l) = order_by le (map f l).
Proof.
  induction l as [|x l IH]; simpl; [reflexivity|].
  now rewrite map_insert_by, IH.
Qed.

Lemma flat_map_select {A : Type} (f : A -> list A) (keep : A -> bool) l :
  (forall x, In x l -> f x = if keep x then [x] else []) ->
  flat_map f l = filter keep l.
Proof.
  induction l as [|x l IH]; simpl; intros H; [reflexivity|].
  rewrite H by now left. rewrite IH by (intros; apply H; now right).
  destruct (keep x); reflexivity.
Qed.

Lemma filter_both {A : Type} (f g : A -> bool) l :
  filter g (filter f l) = filter (fun x => (f x && g x)%bool) l.
Proof.
  induction l as [|x l IH]; simpl; [reflexivity|].
  destruct (f x); simpl; [destruct (g x)|]; now rewrite IH.
Qed.

Lemma flat_map_none {A B : Type} (g : A -> bool) (c : B) l :
  (forall n, In n l -> g n = false) ->
  flat_map (fun n => if g n then [c] else []) l = [].
Proof.
  induction l as [|x l IH]; simpl; intros H; [reflexivity|].
  rewrite H by now left. apply IH. intros; apply H; now right.
Qed.

(** A condition that at most one element of a duplicate-free list meets
    selects at most once. *)
Lemma flat_map_one {A B : Type} (g : A -> bool) (a : A) (c : B) l :
  NoDup l ->
  (forall n, In n l -> g n = true -> n = a) ->
  flat_map (fun n => if g n then [c] else []) l = if existsb g l then [c] else [].
Proof.
  induction 1 as [|x l Hx Hnd IH]; simpl; intros Hone; [reflexivity|].
  destruct (g x) eqn:Gx; simpl.
  - rewrite flat_map_none; [reflexivity|].
    intros n Hn. destruct (g n) eqn:Gn; [|reflexivity].
    assert (x = a) by (apply Hone; auto).
    assert (n = a) by (apply Hone; auto).
    subst. contradiction.
  - apply IH. intros n Hn. apply Hone. now right.
Qed.

Lemma flat_map_of_map {A B C : Type} (f : B -> list C) (g : A -> B) l :
  flat_map f (map g l) = flat_map (fun x => f (g x)) l.
Proof.
  induction l as [|x l IH]; simpl; [reflexivity|now rewrite IH].
Qed.

Lemma MAX_spec xs m :
  MAX xs = Some m <-> In m xs /\ Forall (fun x => x <= m) xs.
Proof.
  revert m. induction xs as [|x xs IH]; intros m; simpl.
  - split; [discriminate|tauto].
  - destruct (MAX xs) as [m'|] eqn:E.
    + specialize (IH m'). destruct IH as [IH _]. specialize (IH eq_refl).
      destruct IH as [Hin Hall]. split.
      * intros [= <-]. split.
        -- destruct (Z.max_spec x m') as [[_ ->]|[_ ->]]; auto.
        -- constructor; [lia|].
           eapply Forall_impl; [|exact Hall]. simpl. intros; lia.
      * intros [[->|Hm] Hb]; inversion Hb as [|? ? Hx Hxs]; subst; f_equal.
        -- rewrite Forall_forall in Hxs. specialize (Hxs _ Hin). lia.
        -- rewrite Forall_forall in Hall, Hxs.
           specialize (Hall _ Hm). specialize (Hxs _ Hin). lia.
    + assert (xs = []) as ->.
      { destruct xs as [|y ys]; [reflexivity|]. simpl in E.
        destruct (MAX ys); discriminate. }
      split.
      * intros [= <-]. split; [now left|]. repeat constructor. lia.
      * intros [[->|[]] _]. reflexivity.
Qed.

Lemma NoDup_map_filter {A B : Type} (f : A -> B) (keep : A -> bool) l :
  NoDup (map f l) -> NoDup (map f (filter keep l)).
Proof.
  induction l as [|x l IH]; simpl; intros H; [constructor|].
  inversion H as [|? ? Hx Hl]; subst.
  destruct (keep x); simpl; [|now apply IH].
  constructor; [|now apply IH].
  rewrite in_map_iff in *. intros (y & Hy & Hin). apply Hx.
  exists y. split; [assumption|]. apply filter_In in Hin. tauto.
Qed.

Lemma NoDup_map_inj {A B : Type} (f : A -> B) l a b :
  NoDup (map f l) -> In a l -> In b l -> f a = f b -> a = b.
Proof.
  induction l as [|x l IH]; simpl; intros H Ha Hb E; [contradiction|].
  inversion H as [|? ? Hx Hl]; subst.
  destruct Ha as [->|Ha], Hb as [->|Hb]; auto.
  - exfalso. apply Hx. rewrite E. now apply in_map.
  - exfalso. apply Hx. rewrite <- E. now apply in_map.
Qed.

(** ** The order of VARCHAR2 values *)

Lemma ascii_compare_refl a : Ascii.compare a a = Eq.
Proof. unfold Ascii.compare. apply N.compare_refl. Qed.

Lemma string_compare_refl s : String.compare s s = Eq.
Proof.
  induction s as [|c s IH]; simpl; [reflexivity|].
  now rewrite ascii_compare_refl.
Qed.

Lemma string_lt_trans s1 :
  forall s2 s3, String.compare s1 s2 = Lt -> String.compare s2 s3 = Lt ->
    String.compare s1 s3 = Lt.
Proof.
  induction s1 as [|a s1 IH]; intros [|b s2] [|c s3]; simpl; try congruence.
  destruct (Ascii.compare a b) eqn:Eab; try discriminate;
    destruct (Ascii.compare b c) eqn:Ebc; try discriminate; intros H1 H2.
  - apply Ascii.compare_eq_iff in Eab, Ebc. subst.
    rewrite ascii_compare_refl. now apply (IH s2).
  - apply Ascii.compare_eq_iff in Eab. subst. now rewrite Ebc.
  - apply Ascii.compare_eq_iff in Ebc. subst. now rewrite Eab.
  - unfold Ascii.compare in *. rewrite N.compare_lt_iff in *.
    assert (N_of_ascii a < N_of_ascii c)%N as H by lia.
    apply N.compare_lt_iff in H. now rewrite H.
Qed.

Lemma string_leb_trans x y z :
  String.leb x y = true -> String.leb y z = true -> String.leb x z = true.
Proof.
  unfold String.leb.
  destruct (String.compare x y) eqn:Exy; try discriminate;
    destruct (String.compare y z) eqn:Eyz; try discriminate; intros _ _.
  - apply String.compare_eq_iff in Exy, Eyz. subst.
    now rewrite string_compare_refl.
  - apply String.compare_eq_iff in Exy. subst. now rewrite Eyz.
  - apply String.compare_eq_iff in Eyz. subst. now rewrite Exy.
  - now rewrite (string_lt_trans x y z).
Qed.

Lemma string_leb_neq_ltb x y :
  String.leb x y = true -> x <> y -> String.ltb x y = true.
Proof.
  unfold String.leb, String.ltb.
  destruct (String.compare x y) eqn:E; try congruence.
  apply String.compare_eq_iff in E. congruence.
Qed.

(** ** The list queries *)

Lemma latest_spec extra kine pattern kv :
  latest extra kine pattern kv = true <->
  (LIKE (name kv) pattern && extra kv)%bool = true /\
  (forall mkv, In mkv kine ->
     (LIKE (name mkv) pattern && extra mkv)%bool = true ->
     name mkv = name kv -> id mkv <= id kv).
Proof.
  unfold latest. rewrite Bool.andb_true_iff, forallb_forall.
  split; intros [Hs Hmax]; (split; [exact Hs|]).
  - intros mkv Hin Hsel Hname. specialize (Hmax mkv Hin).
    rewrite Hsel, Hname, String.eqb_refl in Hmax. simpl in Hmax. lia.
  - intros mkv Hin.
    destruct (LIKE (name mkv) pattern && extra mkv)%bool eqn:Hsel; [|reflexivity].
    destruct (String.eqb_spec (name mkv) (name kv)) as [Hname|]; [|reflexivity].
    simpl. specialize (Hmax mkv Hin Hsel Hname). lia.
Qed.

(** The group of [n] has its largest id at [kv] exactly when [kv] is the
    selected row of name [n] with the largest id. *)
Lemma group_max_hit (sel : Row -> bool) kine n kv :
  primary_key kine -> In kv kine ->
  on_id (MAX (map id (filter (fun mkv => String.eqb (name mkv) n)
                        (filter sel kine)))) kv = true <->
  name kv = n /\ sel kv = true /\
  (forall mkv, In mkv kine -> sel mkv = true -> name mkv = n -> id mkv <= id kv).
Proof.
  intros Hpk Hkv. unfold on_id.
  destruct (MAX _) as [m|] eqn:E.
  - apply MAX_spec in E. destruct E as [Hin Hall].
    apply in_map_iff in Hin. destruct Hin as (r & Hid & Hr).
    rewrite !filter_In in Hr. destruct Hr as [[Hr Hsel] Hn].
    apply String.eqb_eq in Hn.
    rewrite Forall_forall in Hall. rewrite Z.eqb_eq. split.
    + intros ->. assert (r = kv) as -> by now apply (NoDup_map_inj id kine).
      repeat split; try assumption.
      intros mkv Hm Hs Hnm. apply Hall. apply in_map.
      rewrite !filter_In. repeat split; try assumption.
      now apply String.eqb_eq.
    + intros (Hname & Hs & Hmax).
      assert (id kv <= m).
      { apply Hall. apply in_map. rewrite !filter_In. repeat split; try assumption.
        now apply String.eqb_eq. }
      specialize (Hmax r Hr Hsel Hn). lia.
  - split; [discriminate|]. intros (Hname & Hs & _). exfalso.
    assert (In (id kv)
              (map id (filter (fun mkv => String.eqb (name mkv) n) (filter sel kine)))) as Hin.
    { apply in_map. rewrite !filter_In. repeat split; try assumption.
      now apply String.eqb_eq. }
    destruct (map id _); [contradiction|]. simpl in E.
    destruct (MAX l); discriminate.
Qed.

(** With a primary key, the join of [listSQL] keeps each latest row once
    and drops every other row. *)
Lemma join_latest extra kine pattern :
  primary_key kine ->
  join kine (maxkv extra kine pattern) = filter (latest extra kine pattern) kine.
Proof.
  intros Hpk. unfold join, maxkv. apply flat_map_select. intros kv Hkv.
  rewrite flat_map_of_map.
  set (sel := fun mkv => (LIKE (name mkv) pattern && extra mkv)%bool).
  set (g := fun n =>
     on_id (MAX (map id (filter (fun mkv => String.eqb (name mkv) n)
                                (filter sel kine)))) kv).
  transitivity (flat_map (fun n => if g n then [kv] else [])
                  (group_names (filter sel kine))); [reflexivity|].
  rewrite (flat_map_one g (name kv)).
  - replace (existsb g (group_names (filter sel kine)))
      with (latest extra kine pattern kv); [reflexivity|].
    apply Bool.eq_true_iff_eq. rewrite latest_spec, existsb_exists. split.
    + intros [Hs Hmax]. exists (name kv). split.
      * unfold group_names. apply nodup_In, in_map, filter_In. now split.
      * apply group_max_hit; auto.
    + intros (n & _ & Hg). apply group_max_hit in Hg; auto.
      destruct Hg as (<- & Hs & Hmax). auto.
  - apply NoDup_nodup.
  - intros n _ Hg. apply group_max_hit in Hg; auto. symmetry. apply Hg.
Qed.

Lemma record_select kine l : map record (map (select kine) l) = l.
Proof. rewrite map_map. simpl. apply map_id. Qed.

(** The Record columns of a list query: the visible latest rows in name
    order. *)
Lemma listSQL_records extra kine pattern flag :
  primary_key kine ->
  map record (listSQL extra kine pattern flag) =
  order_by (fun a b => String.leb (name a) (name b))
    (filter (fun kv => (latest extra kine pattern kv && visible flag kv)%bool) kine).
Proof.
  intros Hpk. unfold listSQL.
  rewrite (map_order_by record (fun a b => String.leb (name a) (name b))).
  rewrite record_select, join_latest by assumption.
  f_equal. apply filter_both.
Qed.

Lemma le_name_total x y : le_name x y = true \/ le_name y x = true.
Proof. apply String.leb_total. Qed.

Lemma le_name_trans x y z :
  le_name x y = true -> le_name y z = true -> le_name x z = true.
Proof. apply string_leb_trans. Qed.

Lemma NoDup_map_on {A B : Type} (f : A -> B) l :
  NoDup l -> (forall a b, In a l -> In b l -> f a = f b -> a = b) ->
  NoDup (map f l).
Proof.
  induction 1 as [|x l Hx Hnd IH]; simpl; intros Hinj; constructor.
  - rewrite in_map_iff. intros (y & Hy & Hin).
    assert (y = x) by (apply Hinj; auto). now subst.
  - apply IH. intros a b Ha Hb. apply Hinj; now right.
Qed.

Lemma strictly_by_name l :
  StronglySorted (fun a b => le_name a b = true) l -> NoDup (map name l) ->
  StronglySorted (fun a b => String.ltb (name a) (name b) = true) l.
Proof.
  induction 1 as [|x l Hs IH Hx]; simpl; intros Hnd; constructor;
    inversion Hnd as [|? ? Hnx Hnl]; subst.
  - now apply IH.
  - rewrite Forall_forall in *. intros y Hy.
    apply string_leb_neq_ltb; [now apply Hx|].
    intros E. apply Hnx. rewrite E. now apply in_map.
Qed.

(** Two latest rows of one name are one row. *)
Lemma latest_names_distinct extra kine pattern keep :
  primary_key kine ->
  NoDup (map name
           (filter (fun kv => (latest extra kine pattern kv && keep kv)%bool) kine)).
Proof.
  intros Hpk. apply NoDup_map_on.
  - apply NoDup_filter. now apply (NoDup_map_inv id).
  - intros a b Ha Hb E. apply filter_In in Ha, Hb.
    destruct Ha as [Ha Ka], Hb as [Hb Kb].
    apply Bool.andb_true_iff in Ka, Kb.
    destruct Ka as [Ka _], Kb as [Kb _].
    apply latest_spec in Ka, Kb. destruct Ka as [Sa Ma], Kb as [Sb Mb].
    apply (NoDup_map_inj id kine); auto.
    specialize (Ma b Hb Sb (eq_sym E)). specialize (Mb a Ha Sa E). lia.
Qed.

Lemma listSQL_columns extra kine pattern flag r :
  In r (listSQL extra kine pattern flag) ->
  current_rev r = revSQL kine /\ compact_rev r = compactRevSQL kine.
Proof.
  unfold listSQL. intros Hin.
  eapply Permutation_in in Hin; [|apply order_by_perm].
  apply in_map_iff in Hin. destruct Hin as (kv & <- & _). now split.
Qed.

Lemma listSQL_rows extra kine pattern flag kv :
  primary_key kine ->
  In kv (map record (listSQL extra kine pattern flag)) <->
  In kv kine /\ latest extra kine pattern kv = true /\ visible flag kv = true.
Proof.
  intros Hpk. rewrite listSQL_records by assumption. split.
  - intros Hin. eapply Permutation_in in Hin; [|apply order_by_perm].
    apply filter_In in Hin. rewrite Bool.andb_true_iff in Hin. tauto.
  - intros (Hin & Hl & Hv).
    eapply Permutation_in; [symmetry; apply order_by_perm|].
    apply filter_In. rewrite Hl, Hv. auto.
Qed.

Lemma listSQL_strict extra kine pattern flag :
  primary_key kine ->
  StronglySorted (fun a b => String.ltb (name a) (name b) = true)
    (map record (listSQL extra kine pattern flag)).
Proof.
  intros Hpk. rewrite listSQL_records by assumption.
  apply strictly_by_name.
  - apply (order_by_sorted le_name le_name_total le_name_trans).
  - eapply Permutation_NoDup.
    + apply Permutation_map. symmetry. apply order_by_perm.
    + now apply latest_names_distinct.
Qed.

Lemma visible_spec flag kv :
  visible flag kv = true <-> deleted kv = 0 \/ deleted kv = flag.
Proof. unfold visible. rewrite Bool.orb_true_iff, !Z.eqb_eq. tauto. Qed.

(** C1, as the code has it.  On a table whose ids are a primary key the
    current-state list returns a row exactly when its name matches the
    pattern and is greater than the start key ([CHR(1)] for a NULL start
    key), its id is the largest among all rows of its name, deleted or
    not, and its [deleted] column is 0 or the flag.  The rows come in
    strictly ascending name order, so a name has at most one row, and each
    carries the current and the compaction revision of the whole table. *)
Theorem current_list_latest_per_name kine pattern startKey flag :
  primary_key kine ->
  let result := GetCurrentSQL kine pattern startKey flag in
  (forall kv, In kv (map record result) <->
     In kv kine /\
     LIKE (name kv) pattern = true /\
     GT (name kv) (NVL startKey CHR1) = true /\
     (forall other, In other kine -> name other = name kv -> id other <= id kv) /\
     (deleted kv = 0 \/ deleted kv = flag)) /\
  StronglySorted (fun a b => String.ltb (name a) (name b) = true)
    (map record result) /\
  Forall (fun r => current_rev r = revSQL kine /\
                   compact_rev r = compactRevSQL kine) result.
Proof.
  intros Hpk result. subst result. unfold GetCurrentSQL. split; [|split].
  - intros kv. rewrite listSQL_rows by assumption.
    rewrite latest_spec, visible_spec, Bool.andb_true_iff.
    split.
    + intros (Hin & ((Hl & Hg) & Hmax) & Hv). repeat split; try assumption.
      intros other Ho Hn. apply Hmax; [assumption| |assumption].
      now rewrite Hn, Hl, Hg.
    + intros (Hin & Hl & Hg & Hmax & Hv). repeat split; try assumption.
      intros mkv Hm _ Hn. now apply Hmax.
  - now apply listSQL_strict.
  - apply Forall_forall. intros r. apply listSQL_columns.
Qed.

Lemma current_list_latest_per_name_witness :
  let kine := [sample 1 "a" 0; sample 2 "b" 0; sample 3 "a" 0; sample 4 "b" 1] in
  primary_key kine /\
  map record (GetCurrentSQL kine "%" "" 0) = [sample 3 "a" 0] /\
  StronglySorted (fun a b => String.ltb (name a) (name b) = true)
    (map record (GetCurrentSQL kine "%" "" 0)).
Proof.
  assert (primary_key
            [sample 1 "a" 0; sample 2 "b" 0; sample 3 "a" 0; sample 4 "b" 1]) as Hpk.
  { unfold primary_key. simpl.
    repeat (constructor; [simpl; intuition discriminate|]). constructor. }
  split; [exact Hpk|]. split; [reflexivity|].
  apply (current_list_latest_per_name _ "%" "" 0 Hpk).
Defined.

(** C1 as the specification words it fails: after a put and a delete of
    one key the newest row that is not deleted has id 1, and the
    current-state list that hides deleted rows returns no row at all. *)
Lemma current_list_hides_deleted_key :
  let kine := [sample 1 "a" 0; sample 2 "a" 1] in
  primary_key kine /\
  GetCurrentSQL kine "a" "" 0 = [] /\
  ~ lists_newest_visible kine "a" "" 0.
Proof.
  split; [|split].
  - unfold primary_key. simpl.
    repeat (constructor; [simpl; intuition discriminate|]). constructor.
  - reflexivity.
  - intros H. apply (H (sample 1 "a" 0)); [reflexivity|].
    split; [now left|]. split; [reflexivity|].
    intros other [<-|[<-|[]]] _ Hv; simpl in *; [lia|discriminate].
Qed.

Lemma as_of_primary_key R kine : primary_key kine -> primary_key (as_of R kine).
Proof. apply NoDup_map_filter. Qed.

(** The Record columns of the current-state list on the table as of [R]
    are those of the revision-bounded list, without the names up to the
    start key. *)
Lemma snapshot_records kine pattern startKey R flag :
  primary_key kine ->
  map record (GetCurrentSQL (as_of R kine) pattern startKey flag) =
  filter (fun kv => GT (name kv) (NVL startKey CHR1))
    (map record (ListRevisionStartSQL kine pattern R flag)).
Proof.
  intros Hpk. unfold GetCurrentSQL, ListRevisionStartSQL.
  rewrite !listSQL_records by auto using as_of_primary_key.
  fold le_name.
  rewrite (filter_order_by le_name le_name_total le_name_trans).
  f_equal. unfold as_of. rewrite !filter_both.
  apply filter_ext_in. intros kv Hkv.
  apply Bool.eq_true_iff_eq.
  rewrite !Bool.andb_true_iff, !latest_spec, !Bool.andb_true_iff, Z.leb_le.
  split.
  - intros (Hid & ((Hl & Hg) & Hmax) & Hv). repeat split; try assumption.
    intros mkv Hm Hsel Hn. apply Bool.andb_true_iff in Hsel.
    destruct Hsel as [Hlm Him]. apply Hmax; [| |assumption].
    + apply filter_In. now split.
    + now rewrite Hlm, Hn, Hg.
  - intros ((((Hl & Hid) & Hmax) & Hv) & Hg). repeat split; try assumption.
    intros mkv Hm Hsel Hn. apply Bool.andb_true_iff in Hsel.
    destruct Hsel as [Hlm _]. apply filter_In in Hm. destruct Hm as [Hm Him].
    apply Hmax; [assumption| |assumption]. now rewrite Hlm, Him.
Qed.

(** C6, as the code has it.  The revision-bounded list returns no row
    with an id above the ceiling [R], and its Record columns, taken for
    the names greater than a start key ([CHR(1)] for a NULL start key),
    are the Record columns of the current-state list with that start key
    on the table restricted to the ids up to [R]. *)
Theorem revision_list_is_snapshot kine pattern startKey R flag :
  primary_key kine ->
  Forall (fun r => id (record r) <= R)
    (ListRevisionStartSQL kine pattern R flag) /\
  map record (GetCurrentSQL (as_of R kine) pattern startKey flag) =
  filter (fun kv => GT (name kv) (NVL startKey CHR1))
    (map record (ListRevisionStartSQL kine pattern R flag)).
Proof.
  intros Hpk. split; [|now apply snapshot_records].
  apply Forall_forall. intros r Hr.
  assert (In (record r) (map record (ListRevisionStartSQL kine pattern R flag)))
    as Hin by now apply in_map.
  unfold ListRevisionStartSQL in Hin. apply listSQL_rows in Hin; [|assumption].
  destruct Hin as (_ & Hl & _). apply latest_spec in Hl.
  destruct Hl as [Hl _]. apply Bool.andb_true_iff in Hl. now apply Z.leb_le.
Qed.

Lemma revision_list_is_snapshot_witness :
  let kine := [sample 1 "a" 0; sample 2 "b" 0; sample 3 "a" 0; sample 4 "c" 0] in
  primary_key kine /\
  map (fun r => id (record r)) (ListRevisionStartSQL kine "%" 2 0) = [1; 2] /\
  map record (GetCurrentSQL (as_of 2 kine) "%" "a" 0) =
  filter (fun kv => GT (name kv) (NVL "a" CHR1))
    (map record (ListRevisionStartSQL kine "%" 2 0)).
Proof.
  assert (primary_key
            [sample 1 "a" 0; sample 2 "b" 0; sample 3 "a" 0; sample 4 "c" 0]) as Hpk.
  { unfold primary_key. simpl.
    repeat (constructor; [simpl; intuition discriminate|]). constructor. }
  split; [exact Hpk|]. split; [reflexivity|].
  apply (revision_list_is_snapshot _ "%" "a" 2 0 Hpk).
Defined.

(** C6 as the specification words it fails twice.  The leading column of
    a row is the largest id of the whole table, not of the snapshot, so
    the two results differ as soon as a newer row exists; and the
    current-state list leaves out the name [CHR(1)], which the
    revision-bounded list returns. *)
Lemma revision_list_differs_from_snapshot :
  (let kine := [sample 1 "a" 0; sample 2 "b" 0] in
   ListRevisionStartSQL kine "%" 1 0 = [mkResult (Some 2) None (sample 1 "a" 0)] /\
   GetCurrentSQL (as_of 1 kine) "%" "" 0 = [mkResult (Some 1) None (sample 1 "a" 0)] /\
   ListRevisionStartSQL kine "%" 1 0 <> GetCurrentSQL (as_of 1 kine) "%" "" 0) /\
  (let kine := [sample 1 CHR1 0] in
   map record (ListRevisionStartSQL kine "%" 1 0) = [sample 1 CHR1 0] /\
   map record (GetCurrentSQL (as_of 1 kine) "%" "" 0) = []).
Proof.
  repeat split; try reflexivity. discriminate.
Qed.

(** ** The poll query *)

Lemma le_id_total x y : le_id x y = true \/ le_id y x = true.
Proof. unfold le_id. rewrite !Z.leb_le. lia. Qed.

Lemma le_id_trans x y z :
  le_id x y = true -> le_id y z = true -> le_id x z = true.
Proof. unfold le_id. rewrite !Z.leb_le. lia. Qed.

Lemma AfterSQL_records kine pattern F :
  map record (AfterSQL kine pattern F) =
  order_by le_id
    (filter (fun kv => (LIKE (name kv) pattern && (F <? id kv))%bool) kine).
Proof.
  unfold AfterSQL. rewrite (map_order_by record le_id).
  now rewrite record_select.
Qed.

Lemma AfterSQL_rows kine pattern F kv :
  In kv (map record (AfterSQL kine pattern F)) <->
  In kv kine /\ LIKE (name kv) pattern = true /\ F < id kv.
Proof.
  rewrite AfterSQL_records. split.
  - intros Hin. eapply Permutation_in in Hin; [|apply order_by_perm].
    apply filter_In in Hin. rewrite Bool.andb_true_iff, Z.ltb_lt in Hin. tauto.
  - intros (Hin & Hl & Hf).
    eapply Permutation_in; [symmetry; apply order_by_perm|].
    apply filter_In. split; [assumption|].
    apply Bool.andb_true_iff. split; [assumption|now apply Z.ltb_lt].
Qed.

(** C7.  The poll query returns every row, in all its versions, whose
    name matches the pattern and whose id is above the floor [F], each as
    often as the table holds it, in ascending id order.  A later poll of
    any later table with the floor [F'], the largest id returned, returns
    only ids above [F'], hence none of the ids returned before. *)
Theorem after_poll_rows kine pattern F :
  let rows := map record (AfterSQL kine pattern F) in
  Permutation rows
    (filter (fun kv => (LIKE (name kv) pattern && (F <? id kv))%bool) kine) /\
  (forall kv, In kv rows <->
     In kv kine /\ LIKE (name kv) pattern = true /\ F < id kv) /\
  StronglySorted (fun a b => id a <= id b) rows /\
  (forall F' later again,
     MAX (map id rows) = Some F' ->
     In again (map record (AfterSQL later pattern F')) ->
     F' < id again /\ ~ In (id again) (map id rows)).
Proof.
  intros rows. subst rows. split; [|split; [|split]].
  - rewrite AfterSQL_records. apply order_by_perm.
  - intros kv. apply AfterSQL_rows.
  - rewrite AfterSQL_records.
    pose proof (order_by_sorted le_id le_id_total le_id_trans
                  (filter (fun kv => (LIKE (name kv) pattern && (F <? id kv))%bool) kine))
      as Hs.
    eapply StronglySorted_ind with (P := fun l => StronglySorted _ l);
      [constructor| |exact Hs].
    intros a l _ IH Ha. constructor; [exact IH|].
    eapply Forall_impl; [|exact Ha]. intros b Hb. now apply Z.leb_le.
  - intros F' later again Hmax Hin.
    apply AfterSQL_rows in Hin. destruct Hin as (_ & _ & Hlt).
    split; [assumption|]. intros Hold.
    apply MAX_spec in Hmax. destruct Hmax as [_ Hall].
    rewrite Forall_forall in Hall. specialize (Hall _ Hold). lia.
Qed.

(** ** The error classifier *)


(** ** The schema installer *)

Ltac run_fields :=
  cbv zeta;
  cbn [final executed returned warned done after failed exists_after warns
       map fst snd app].

Section Installer.

Variable B : Backend.

Lemma migrate_nothing i limit (db : DB B) :
  migrate B i schemaMigrations limit db = done db.
Proof.
  unfold schemaMigrations. simpl.
  destruct (limit <=? i); [reflexivity|].
  destruct (limit <=? i + 1); reflexivity.
Qed.

Lemma selected_nothing i V : selected_migrations i schemaMigrations V = [].
Proof.
  unfold schemaMigrations. simpl.
  rewrite !Bool.andb_false_r. reflexivity.
Qed.

(** The statements that the migration loop executes, for any list of
    migrations: without a failure they are the statements below the
    limit that are not empty. *)
Lemma migrate_selects stmts :
  forall i limit (db : DB B),
    returned (migrate B i stmts limit db) = None ->
    map fst (executed (migrate B i stmts limit db)) =
    selected_migrations i stmts limit.
Proof.
  induction stmts as [|stmt rest IH]; intros i limit db; simpl; [reflexivity|].
  destruct (Z.leb_spec limit i) as [Hle|Hlt].
  - intros _. replace (i <? limit) with false by (symmetry; apply Z.ltb_ge; lia).
    simpl. clear IH. revert i Hle.
    induction rest as [|s r IHr]; intros i Hle; simpl; [reflexivity|].
    replace (i + 1 <? limit) with false by (symmetry; apply Z.ltb_ge; lia).
    simpl. apply IHr. lia.
  - replace (i <? limit) with true by (symmetry; apply Z.ltb_lt; lia).
    destruct (String.eqb stmt EmptyString); simpl; [apply IH|].
    destruct (Exec B stmt db) as [db' [e|]]; simpl; [discriminate|].
    intros H. f_equal. now apply IH.
Qed.

(** A version of 2^63 or more turns into a negative limit, below every
    index. *)
Lemma migrate_negative_limit stmts i limit (db : DB B) :
  limit <= i -> migrate B i stmts limit db = done db.
Proof.
  intros Hle. destruct stmts as [|stmt rest]; simpl; [reflexivity|].
  now replace (limit <=? i) with true by (symmetry; apply Z.leb_le; lia).
Qed.

Lemma create_cons stmt rest (db : DB B) :
  create B (stmt :: rest) db =
  match Exec B stmt db with
  | (db', Some e) => failed stmt db' e
  | (db', None) => after stmt (create B rest db')
  end.
Proof. reflexivity. Qed.


Lemma setup_is_create env (db : DB B) :
  let check := table_exists B db in
  let created := if exists_after check then done db else create B schema db in
  setup B env db =
  mkRun (final created) (executed created) (returned created) (warns check).
Proof.
  intros check created. unfold setup. fold check. fold created.
  destruct (returned created) as [e|] eqn:E; [reflexivity|].
  rewrite migrate_nothing. cbn [final executed returned warned done].
  now rewrite app_nil_r.
Qed.





Lemma is_digit_value c : Go.is_digit c = true -> 0 <= Go.digit_value c <= 9.
Proof.
  unfold Go.is_digit, Go.digit_value, Ascii.leb, Ascii.compare.
  rewrite Bool.andb_true_iff. intros [Hlo Hhi].
  change (N_of_ascii "0") with 48%N in Hlo.
  change (N_of_ascii "9") with 57%N in Hhi.
  destruct (N.compare_spec 48 (N_of_ascii c)); try discriminate;
    destruct (N.compare_spec (N_of_ascii c) 57); try discriminate; lia.
Qed.

Lemma parse_digits_range s :
  forall n, 0 <= n <= Go.MaxUint64 ->
    0 <= fst (Go.parse_digits n s) <= Go.MaxUint64.
Proof.
  change Go.MaxUint64 with 18446744073709551615.
  induction s as [|c s IH]; intros n Hn; cbn [Go.parse_digits]; [exact Hn|].
  change Go.MaxUint64 with 18446744073709551615.
  destruct (Go.is_digit c) eqn:Hd; [|cbn [fst]; lia].
  destruct (18446744073709551615 / 10 + 1 <=? n); [cbn [fst]; lia|].
  destruct (Z.ltb_spec 18446744073709551615 (n * 10 + Go.digit_value c));
    [cbn [fst]; lia|].
  apply IH. apply is_digit_value in Hd. lia.
Qed.

Lemma schemaVersion_range env : 0 <= schemaVersion env <= Go.MaxUint64.
Proof.
  unfold schemaVersion, Go.ParseUint.
  destruct (Go.Getenv env) as [|c s].
  - change Go.MaxUint64 with 18446744073709551615. cbn [fst]. lia.
  - apply parse_digits_range.
    change Go.MaxUint64 with 18446744073709551615. lia.
Qed.

(** The statements up to a failure are executed once each and the failure
    ends the migration loop, for any list of migrations. *)
Lemma migrate_stops stmts :
  forall i limit (db : DB B) before stmt e rest,
    executed (migrate B i stmts limit db) = (before ++ (stmt, Some e) :: rest)%list ->
    rest = [] /\ returned (migrate B i stmts limit db) = Some e.
Proof.
  induction stmts as [|s more IH]; intros i limit db before stmt e rest; simpl.
  - destruct before; discriminate.
  - destruct (limit <=? i); [destruct before; discriminate|].
    destruct (String.eqb s EmptyString); [apply IH|].
    destruct (Exec B s db) as [db' [e'|]]; simpl.
    + destruct before as [|b before]; simpl; intros H.
      * injection H as _ <- <-. now split.
      * injection H as _ H. destruct before; discriminate.
    + destruct before as [|b before]; simpl; intros H; [discriminate|].
      injection H as _ H. now apply IH in H.
Qed.

(** C4.  The desired version [V] is an unsigned 64-bit integer.  For
    every value of KINE_SCHEMA_MIGRATION, set or not, the migration loop
    of the installer executes the migration statements of an index below
    [V] that are not empty, in order, and returns no error; the statements
    that the installer executes are those of the table creation followed
    by these.  A value that is absent or does not parse leads to no
    migration statement.  The loop does the same for any list of
    migrations, as long as [V] is an [int] and no statement fails. *)
Theorem migrations_below_version (env : option string) (db : DB B) :
  let V := schemaVersion env in
  let run := migrate B 0 schemaMigrations (Go.int_of_uint64 V) db in
  0 <= V <= Go.MaxUint64 /\
  map fst (executed run) = selected_migrations 0 schemaMigrations V /\
  returned run = None /\
  final run = db /\
  (let created :=
     if exists_after (table_exists B db) then done db else create B schema db in
   returned created = None ->
   map fst (executed (setup B env db)) =
   (map fst (executed created) ++ selected_migrations 0 schemaMigrations V)%list) /\
  (snd (Go.ParseUint (Go.Getenv env)) <> None -> executed run = []) /\
  (env = None -> executed run = []) /\
  (forall stmts,
     V <= Go.MaxInt ->
     returned (migrate B 0 stmts (Go.int_of_uint64 V) db) = None ->
     map fst (executed (migrate B 0 stmts (Go.int_of_uint64 V) db)) =
     selected_migrations 0 stmts V).
Proof.
  intros V run. subst run. split; [apply schemaVersion_range|].
  rewrite migrate_nothing, selected_nothing.
  run_fields. repeat split; try reflexivity.
  - intros _. rewrite setup_is_create. run_fields. now rewrite app_nil_r.
  - intros stmts HV. unfold Go.int_of_uint64.
    pose proof (schemaVersion_range env) as Hr. fold V in Hr.
    rewrite int_wrap_small
      by (change Go.MaxInt with 9223372036854775807 in *;
          change (2 ^ 63) with 9223372036854775808; lia).
    apply migrate_selects.
Qed.



(** The backend keeps its tables: a CREATE TABLE statement that succeeds
    makes the existence check find the table, and the other statements of
    the schema leave the result of the check as it is. *)
Hypothesis created_is_found :
  forall db db',
    Exec B (hd EmptyString schema) db = (db', None) ->
    table_exists B db' = Scanned true.
Hypothesis index_keeps_table :
  forall stmt db db' r,
    In stmt (tl schema) -> Exec B stmt db = (db', r) ->
    table_exists B db' = table_exists B db.




End Installer.

(** ** The installer on a backend that keeps its catalog *)





(** ** More on the placeholder translator and the templates *)

Lemma string_app_assoc (a b c : string) : (a ++ b) ++ c = a ++ b ++ c.
Proof. induction a as [|x a IH]; simpl; [reflexivity | now rewrite IH]. Qed.

Lemma string_app_length (a b : string) :
  String.length (a ++ b) = (String.length a + String.length b)%nat.
Proof. induction a as [|x a IH]; simpl; [reflexivity | now rewrite IH]. Qed.

Lemma replace_all_app a :
  forall n b, 0 <= n -> n + Z.of_nat (count_markers a) <= Go.MaxInt ->
    replace_all n (a ++ b) =
    replace_all n a ++ replace_all (n + Z.of_nat (count_markers a)) b.
Proof.
  induction a as [|c a IH]; intros n b Hn Hb.
  - simpl. now rewrite Z.add_0_r.
  - cbn [count_markers] in *. cbn [append replace_all].
    destruct (Ascii.eqb c "?") eqn:E.
    + rewrite Nat2Z.inj_succ in *.
      rewrite int_wrap_small by (unfold Go.MaxInt in *; lia).
      rewrite IH by lia. unfold pref. cbn [append].
      rewrite string_app_assoc.
      replace (n + 1 + Z.of_nat (count_markers a))
        with (n + Z.succ (Z.of_nat (count_markers a))) by lia.
      reflexivity.
    + cbn [append]. now rewrite IH by lia.
Qed.

(** X1.  The numbering of [q] runs through a template that is put
    together from two texts: the first text is translated as on its own,
    and the markers of the second text carry the numbers that follow those
    of the first. *)
Theorem q_numbering_continues (a b : string) :
  Go.len (a ++ b) <= Go.MaxInt ->
  let k := count_markers a in
  q (a ++ b) =
  q a ++ weave (segments b)
           (map marker (marker_numbers (Z.of_nat k + 1) (count_markers b))).
Proof.
  intros Hlen k. subst k. unfold Go.len in Hlen.
  rewrite string_app_length in Hlen.
  pose proof (count_markers_le_length a). pose proof (count_markers_le_length b).
  unfold q. rewrite replace_all_app by lia.
  rewrite (replace_all_weave b) by lia. reflexivity.
Qed.

Lemma q_numbering_continues_witness :
  Go.len ("a = ? AND " ++ "b = ?") <= Go.MaxInt /\
  q ("a = ? AND " ++ "b = ?") = q "a = ? AND " ++ weave ["b = "; ""] [":2"].
Proof.
  split; [vm_compute; discriminate|].
  apply (q_numbering_continues "a = ? AND " "b = ?").
  vm_compute; discriminate.
Defined.

Lemma Sprintf_plain s : forall args, has_verb s = false -> Text.Sprintf s args = s.
Proof.
  induction s as [|c s IH]; intros args; simpl; [reflexivity|].
  destruct (Ascii.eqb c "%"); simpl; [discriminate|].
  intros H. now rewrite IH.
Qed.

Lemma Sprintf_first_verb p :
  forall z a args, has_verb p = false ->
    Text.Sprintf (p ++ "%s" ++ z) (a :: args) = p ++ a ++ Text.Sprintf z args.
Proof.
  induction p as [|c p IH]; intros z a args H; [reflexivity|].
  cbn [has_verb] in H. apply Bool.orb_false_iff in H. destruct H as [Hc Hp].
  change (String c p ++ "%s" ++ z) with (String c (p ++ "%s" ++ z)).
  cbn [Text.Sprintf]. rewrite Hc, IH by assumption. reflexivity.
Qed.

Lemma listSQL_spliced extra :
  Text.Sprintf Text.listSQL [extra] =
  before_verb Text.listSQL ++ extra ++ after_verb Text.listSQL.
Proof.
  assert (Text.listSQL =
          before_verb Text.listSQL ++ "%s" ++ after_verb Text.listSQL) as E
    by (vm_compute; reflexivity).
  rewrite E at 1. rewrite Sprintf_first_verb by (vm_compute; reflexivity).
  rewrite Sprintf_plain by (vm_compute; reflexivity). reflexivity.
Qed.

(** A template of three parts whose first and last part hold one generic
    marker each. *)
Lemma q_three_parts (head extra tail : string) :
  Go.len (head ++ extra ++ tail) <= Go.MaxInt ->
  count_markers head = 1%nat -> count_markers tail = 1%nat ->
  q (head ++ extra ++ tail) =
    weave (segments head) [marker 1] ++
    weave (segments extra)
      (map marker (marker_numbers 2 (count_markers extra))) ++
    weave (segments tail) [marker (Z.of_nat (count_markers extra) + 2)].
Proof.
  intros Hlen Hh Ht. unfold Go.len in Hlen.
  rewrite !string_app_length in Hlen.
  pose proof (count_markers_le_length extra) as Hc.
  pose proof (count_markers_le_length head) as Hlh.
  pose proof (count_markers_le_length tail) as Hlt.
  unfold q. rewrite replace_all_app by lia. rewrite replace_all_app by lia.
  rewrite (replace_all_weave head), (replace_all_weave extra),
    (replace_all_weave tail) by lia.
  rewrite Hh, Ht. cbn [marker_numbers map].
  replace (0 + Z.of_nat 1 + 1) with 2 by lia.
  replace (0 + Z.of_nat 1 + Z.of_nat (count_markers extra) + 1)
    with (Z.of_nat (count_markers extra) + 2) by lia.
  reflexivity.
Qed.

(** X2.  Whatever condition is spliced into [listSQL], the translated
    template is the text before the splice with the pattern bound to
    [:1], the condition with its markers numbered from [:2] on, and the
    text after the splice with the deleted flag bound to the marker after
    the last one of the condition. *)
Theorem listSQL_binds_in_order (extra : string) :
  Go.len (Text.Sprintf Text.listSQL [extra]) <= Go.MaxInt ->
  let k := count_markers extra in
  Text.Sprintf Text.listSQL [extra] =
    before_verb Text.listSQL ++ extra ++ after_verb Text.listSQL /\
  q (Text.Sprintf Text.listSQL [extra]) =
    weave (segments (before_verb Text.listSQL)) [marker 1] ++
    weave (segments extra) (map marker (marker_numbers 2 k)) ++
    weave (segments (after_verb Text.listSQL)) [marker (Z.of_nat k + 2)].
Proof.
  intros Hlen k. subst k. split; [apply listSQL_spliced|].
  rewrite listSQL_spliced in Hlen. rewrite listSQL_spliced.
  apply q_three_parts; [exact Hlen | |]; vm_compute; reflexivity.
Qed.

Lemma listSQL_binds_in_order_witness :
  Go.len (Text.Sprintf Text.listSQL ["AND mkv.name > ? AND mkv.id <= ?"])
    <= Go.MaxInt /\
  Text.GetRevisionAfterSQL Text.dialect =
    weave (segments (before_verb Text.listSQL)) [":1"] ++
    weave ["AND mkv.name > "; " AND mkv.id <= "; ""] [":2"; ":3"] ++
    weave (segments (after_verb Text.listSQL)) [":4"].
Proof.
  split; [vm_compute; discriminate|].
  apply (listSQL_binds_in_order "AND mkv.name > ? AND mkv.id <= ?").
  vm_compute; discriminate.
Defined.

(** ** More on the queries *)

Lemma filter_none {A : Type} (f : A -> bool) l :
  (forall x, In x l -> f x = false) -> filter f l = [].
Proof.
  induction l as [|x l IH]; simpl; intros H; [reflexivity|].
  rewrite H by now left. apply IH. intros y Hy. apply H. now right.
Qed.

Lemma filter_all {A : Type} (f : A -> bool) l :
  (forall x, In x l -> f x = true) -> filter f l = l.
Proof.
  induction l as [|x l IH]; simpl; intros H; [reflexivity|].
  rewrite H by now left. f_equal. apply IH. intros y Hy. apply H. now right.
Qed.

Lemma filter_key_once {A : Type} (key : A -> Z) (k : Z) l :
  NoDup (map key l) ->
  (List.length (filter (fun x => (key x =? k)%Z) l) <= 1)%nat.
Proof.
  induction l as [|x l IH]; simpl; intros H; [lia|].
  inversion H as [|? ? Hx Hl]; subst.
  destruct (Z.eqb_spec (key x) k) as [E|E]; [|now apply IH].
  rewrite filter_none; [simpl; lia|].
  intros y Hy. apply Z.eqb_neq. intros Ey. apply Hx.
  rewrite E, <- Ey. now apply in_map.
Qed.

(** X3.  The point get returns at most one row: the row of the table with
    the given id, if there is one, with 0 in both leading columns. *)
Theorem point_get_by_id (kine : Table) (rev : Z) :
  primary_key kine ->
  (List.length (GetRevisionSQL kine rev) <= 1)%nat /\
  (forall r, In r (GetRevisionSQL kine rev) <->
     In (record r) kine /\ id (record r) = rev /\
     current_rev r = Some 0 /\ compact_rev r = Some 0).
Proof.
  intros Hpk. unfold GetRevisionSQL. split.
  - rewrite length_map. now apply filter_key_once.
  - intros r. rewrite in_map_iff. split.
    + intros (kv & <- & Hkv). apply filter_In in Hkv.
      destruct Hkv as [Hin Hid]. apply Z.eqb_eq in Hid. simpl. auto.
    + intros (Hin & Hid & Hc & Hk). exists (record r). split.
      * destruct r as [c k kv]. simpl in *. now subst.
      * apply filter_In. split; [assumption | now apply Z.eqb_eq].
Qed.

Lemma point_get_by_id_witness :
  primary_key [sample 1 "a" 0; sample 2 "b" 0] /\
  (List.length (GetRevisionSQL [sample 1 "a" 0; sample 2 "b" 0] 2) <= 1)%nat.
Proof.
  assert (primary_key [sample 1 "a" 0; sample 2 "b" 0]) as Hpk.
  { unfold primary_key. simpl.
    repeat (constructor; [simpl; intuition discriminate|]). constructor. }
  split; [exact Hpk|]. apply (point_get_by_id _ 2 Hpk).
Defined.

Lemma DeleteSQL_primary_key kine rev :
  primary_key kine -> primary_key (DeleteSQL kine rev).
Proof. apply NoDup_map_filter. Qed.

(** X4.  After the deletion of the id [i] the point get of [i] returns no
    row and the point get of any other id returns what it returned
    before; the rows left are those of another id, and the ids are still
    a primary key. *)
Theorem delete_then_get (kine : Table) (i j : Z) :
  GetRevisionSQL (DeleteSQL kine i) j =
    (if i =? j then [] else GetRevisionSQL kine j) /\
  (forall kv, In kv (DeleteSQL kine i) <-> In kv kine /\ id kv <> i) /\
  (primary_key kine -> primary_key (DeleteSQL kine i)).
Proof.
  split; [|split].
  - unfold GetRevisionSQL, DeleteSQL. rewrite filter_both.
    destruct (Z.eqb_spec i j) as [->|Hne].
    + rewrite filter_none; [reflexivity|].
      intros kv _. destruct (id kv =? j); reflexivity.
    + f_equal. apply filter_ext. intros kv.
      destruct (Z.eqb_spec (id kv) j) as [E|E];
        [|now rewrite Bool.andb_false_r].
      replace (id kv =? i) with false; [reflexivity|].
      symmetry. apply Z.eqb_neq. congruence.
  - intros kv. unfold DeleteSQL. rewrite filter_In, Bool.negb_true_iff, Z.eqb_neq.
    tauto.
  - apply DeleteSQL_primary_key.
Qed.

(** X5.  The deletion of an id that no row has leaves the table as it is;
    a second deletion of the same id changes nothing; and two deletions
    may be made in either order. *)
Theorem delete_absent_and_repeated (kine : Table) (i j : Z) :
  (~ In i (map id kine) -> DeleteSQL kine i = kine) /\
  DeleteSQL (DeleteSQL kine i) i = DeleteSQL kine i /\
  DeleteSQL (DeleteSQL kine i) j = DeleteSQL (DeleteSQL kine j) i.
Proof.
  unfold DeleteSQL. split; [|split].
  - intros Hno. apply filter_all. intros kv Hkv.
    apply Bool.negb_true_iff, Z.eqb_neq. intros E. apply Hno.
    rewrite <- E. now apply in_map.
  - rewrite filter_both. apply filter_ext. intros kv.
    now destruct (id kv =? i).
  - rewrite !filter_both. apply filter_ext. intros kv.
    apply Bool.andb_comm.
Qed.

Lemma MAX_of_member xs x :
  In x xs -> exists m, MAX xs = Some m /\ x <= m /\ Forall (fun y => y <= m) xs.
Proof.
  intros Hin. destruct (MAX xs) as [m|] eqn:E.
  - exists m. pose proof E as E'. apply MAX_spec in E'. destruct E' as [_ Hall].
    repeat split; try assumption.
    rewrite Forall_forall in Hall. now apply Hall.
  - exfalso. destruct xs as [|y ys]; [contradiction|]. simpl in E.
    destruct (MAX ys); discriminate.
Qed.

Lemma MAX_without_smaller xs a b :
  In b xs -> a < b -> MAX (filter (fun x => negb (x =? a)) xs) = MAX xs.
Proof.
  intros Hb Hlt. destruct (MAX_of_member xs b Hb) as (m & Hm & Hbm & Hall).
  rewrite Hm. apply MAX_spec. apply MAX_spec in Hm. destruct Hm as [Hin _].
  split.
  - apply filter_In. split; [assumption|].
    apply Bool.negb_true_iff, Z.eqb_neq. lia.
  - rewrite Forall_forall in *. intros x Hx. apply filter_In in Hx.
    apply Hall. tauto.
Qed.

Lemma map_filter_key {A : Type} (key : A -> Z) (keep : Z -> bool) l :
  map key (filter (fun x => keep (key x)) l) = filter keep (map key l).
Proof.
  induction l as [|x l IH]; simpl; [reflexivity|].
  destruct (keep (key x)); simpl; now rewrite IH.
Qed.

(** X6.  The deletion of a row that is superseded, that is, of a row with
    a newer row of the same name, leaves the whole result of the
    current-state list as it is, its leading columns included, when the
    row is not one of the compaction register. *)
Theorem delete_superseded_keeps_current
  (kine : Table) (pattern startKey : string) (flag : Z) (old newer : Row) :
  primary_key kine ->
  In old kine -> In newer kine ->
  name newer = name old -> id old < id newer ->
  name old <> "compact_rev_key" ->
  GetCurrentSQL (DeleteSQL kine (id old)) pattern startKey flag =
  GetCurrentSQL kine pattern startKey flag.
Proof.
  intros Hpk Hold Hnew Hname Hlt Hreg.
  assert (forall kv, In kv kine -> id kv = id old -> kv = old) as Hone.
  { intros kv Hkv E. now apply (NoDup_map_inj id kine). }
  assert (revSQL (DeleteSQL kine (id old)) = revSQL kine) as Hrev.
  { unfold revSQL, DeleteSQL.
    rewrite (map_filter_key id (fun x => negb (x =? id old))).
    apply (MAX_without_smaller _ _ (id newer)); [now apply in_map | assumption]. }
  assert (compactRevSQL (DeleteSQL kine (id old)) = compactRevSQL kine) as Hcomp.
  { unfold compactRevSQL, DeleteSQL. rewrite filter_both. do 2 f_equal.
    apply filter_ext_in. intros kv Hkv.
    destruct (Z.eqb_spec (id kv) (id old)) as [E|E]; [|reflexivity].
    apply Hone in E; [|assumption]. subst kv. simpl. symmetry.
    now apply String.eqb_neq. }
  unfold GetCurrentSQL, listSQL.
  rewrite !join_latest by auto using DeleteSQL_primary_key.
  unfold select. rewrite Hrev, Hcomp. do 3 f_equal.
  unfold DeleteSQL. rewrite filter_both. apply filter_ext_in. intros kv Hkv.
  apply Bool.eq_true_iff_eq.
  rewrite Bool.andb_true_iff, !latest_spec, Bool.negb_true_iff, Z.eqb_neq.
  split.
  - intros (Hid & Hsel & Hmax). split; [assumption|].
    intros mkv Hm Hs Hn.
    destruct (Z.eq_dec (id mkv) (id old)) as [E|E].
    + apply Hone in E; [|assumption]. subst mkv.
      assert (id newer <= id kv); [|lia].
      apply Hmax.
      * apply filter_In. split; [assumption|].
        apply Bool.negb_true_iff, Z.eqb_neq. lia.
      * now rewrite Hname.
      * congruence.
    + apply Hmax; try assumption.
      apply filter_In. split; [assumption|].
      now apply Bool.negb_true_iff, Z.eqb_neq.
  - intros (Hsel & Hmax). split; [|split; [assumption|]].
    + intros E. apply Hone in E; [|assumption]. subst kv.
      assert (id newer <= id old); [|lia].
      apply Hmax; [assumption| |assumption]. now rewrite Hname.
    + intros mkv Hm Hs Hn. apply filter_In in Hm. now apply Hmax.
Qed.

Lemma delete_superseded_keeps_current_witness :
  let kine := [sample 1 "a" 0; sample 2 "b" 0; sample 3 "a" 0] in
  primary_key kine /\
  GetCurrentSQL (DeleteSQL kine 1) "%" "" 0 = GetCurrentSQL kine "%" "" 0.
Proof.
  assert (primary_key [sample 1 "a" 0; sample 2 "b" 0; sample 3 "a" 0]) as Hpk.
  { unfold primary_key. simpl.
    repeat (constructor; [simpl; intuition discriminate|]). constructor. }
  split; [exact Hpk|].
  apply (delete_superseded_keeps_current _ "%" "" 0
           (sample 1 "a" 0) (sample 3 "a" 0) Hpk).
  - now left.
  - right. right. now left.
  - reflexivity.
  - reflexivity.
  - discriminate.
Defined.


(** The Record columns of a list query with a cursor on the name are
    those of the query without the cursor, for the names after the
    cursor. *)
Lemma cursor_records kine pattern (cursor : string) R flag :
  primary_key kine ->
  map record
    (listSQL (fun mkv => (GT (name mkv) cursor && (id mkv <=? R))%bool)
       kine pattern flag) =
  filter (fun kv => GT (name kv) cursor)
    (map record (ListRevisionStartSQL kine pattern R flag)).
Proof.
  intros Hpk. unfold ListRevisionStartSQL.
  rewrite !listSQL_records by assumption. fold le_name.
  rewrite (filter_order_by le_name le_name_total le_name_trans).
  f_equal. rewrite filter_both. apply filter_ext_in. intros kv Hkv.
  apply Bool.eq_true_iff_eq.
  rewrite !Bool.andb_true_iff, !latest_spec, !Bool.andb_true_iff.
  split.
  - intros (((Hl & Hg & Hid) & Hmax) & Hv). repeat split; try assumption.
    intros mkv Hm Hsel Hn. apply Bool.andb_true_iff in Hsel.
    destruct Hsel as [Hlm Him]. apply Hmax; [assumption| |assumption].
    now rewrite Hlm, Hn, Hg, Him.
  - intros ((((Hl & Hid) & Hmax) & Hv) & Hg). repeat split; try assumption.
    intros mkv Hm Hsel Hn. rewrite !Bool.andb_true_iff in Hsel.
    destruct Hsel as (Hlm & _ & Him). apply Hmax; [assumption| |assumption].
    now rewrite Hlm, Him.
Qed.

(** X7.  The list after a cursor returns no row with an id above the
    ceiling [R] and no row whose name is not after the cursor, and its
    Record columns are those of the revision-bounded list for the names
    after the cursor. *)
Theorem revision_after_is_page
  (kine : Table) (pattern startKey : string) (R flag : Z) :
  primary_key kine ->
  Forall (fun r => id (record r) <= R /\ GT (name (record r)) startKey = true)
    (GetRevisionAfterSQL kine pattern startKey R flag) /\
  map record (GetRevisionAfterSQL kine pattern startKey R flag) =
  filter (fun kv => GT (name kv) startKey)
    (map record (ListRevisionStartSQL kine pattern R flag)).
Proof.
  intros Hpk. split; [|now apply cursor_records].
  apply Forall_forall. intros r Hr.
  assert (In (record r)
            (map record (GetRevisionAfterSQL kine pattern startKey R flag)))
    as Hin by now apply in_map.
  unfold GetRevisionAfterSQL in Hin. apply listSQL_rows in Hin; [|assumption].
  destruct Hin as (_ & Hl & _). apply latest_spec in Hl.
  destruct Hl as [Hl _]. rewrite !Bool.andb_true_iff, Z.leb_le in Hl. tauto.
Qed.

Lemma revision_after_is_page_witness :
  let kine := [sample 1 "a" 0; sample 2 "b" 0; sample 3 "c" 0; sample 4 "d" 0] in
  primary_key kine /\
  map record (GetRevisionAfterSQL kine "%" "a" 3 0) =
  filter (fun kv => GT (name kv) "a")
    (map record (ListRevisionStartSQL kine "%" 3 0)).
Proof.
  assert (primary_key
            [sample 1 "a" 0; sample 2 "b" 0; sample 3 "c" 0; sample 4 "d" 0]) as Hpk.
  { unfold primary_key. simpl.
    repeat (constructor; [simpl; intuition discriminate|]). constructor. }
  split; [exact Hpk|].
  apply (revision_after_is_page _ "%" "a" 3 0 Hpk).
Defined.

(** X8.  With a NULL cursor, which is what an empty string is for Oracle,
    the list after a cursor returns no row at all, whatever the table
    holds: the comparison of a name with NULL selects nothing, and this
    template has no NVL as the current-state list has. *)
Theorem revision_after_null_cursor (kine : Table) (pattern : string) (R flag : Z) :
  GetRevisionAfterSQL kine pattern EmptyString R flag = [].
Proof.
  unfold GetRevisionAfterSQL, listSQL, maxkv.
  rewrite (filter_none _ kine).
  - simpl. unfold join.
    replace (flat_map _ kine) with (@nil Row); [reflexivity|].
    induction kine as [|kv l IH]; simpl; [reflexivity | exact IH].
  - intros kv _. unfold GT. simpl. now rewrite Bool.andb_false_r.
Qed.

(** X9.  The count at a revision is the count of the current state of the
    table restricted to the ids up to that revision, while its leading
    column is the largest id of the whole table. *)
Theorem count_at_revision_is_snapshot_count
  (kine : Table) (pattern startKey : string) (R flag : Z) :
  primary_key kine ->
  snd (CountRevisionSQL kine pattern startKey R flag) =
  snd (CountCurrentSQL (as_of R kine) pattern startKey flag) /\
  fst (CountRevisionSQL kine pattern startKey R flag) = revSQL kine.
Proof.
  intros Hpk. split; [|reflexivity].
  unfold CountRevisionSQL, CountCurrentSQL, COUNT. cbn [snd]. f_equal.
  rewrite <- (length_map record), <- (length_map record (listSQL _ (as_of R kine) _ _)).
  f_equal. rewrite cursor_records by assumption.
  symmetry. apply (snapshot_records kine pattern startKey R flag Hpk).
Qed.

Lemma count_at_revision_is_snapshot_count_witness :
  let kine := [sample 1 "a" 0; sample 2 "b" 0; sample 3 "c" 0] in
  primary_key kine /\
  snd (CountRevisionSQL kine "%" "" 2 0) = 2 /\
  snd (CountRevisionSQL kine "%" "" 2 0) =
  snd (CountCurrentSQL (as_of 2 kine) "%" "" 0).
Proof.
  assert (primary_key [sample 1 "a" 0; sample 2 "b" 0; sample 3 "c" 0]) as Hpk.
  { unfold primary_key. simpl.
    repeat (constructor; [simpl; intuition discriminate|]). constructor. }
  split; [exact Hpk|]. split; [reflexivity|].
  apply (count_at_revision_is_snapshot_count _ "%" "" 2 0 Hpk).
Defined.



(** X11.  The poll does not miss the current state: every row of the
    current-state list whose id is above the floor is among the rows that
    the poll with the same pattern and this floor returns. *)
Theorem poll_covers_current
  (kine : Table) (pattern startKey : string) (flag F : Z) (kv : Row) :
  primary_key kine ->
  In kv (map record (GetCurrentSQL kine pattern startKey flag)) ->
  F < id kv ->
  In kv (map record (AfterSQL kine pattern F)).
Proof.
  intros Hpk Hin HF. unfold GetCurrentSQL in Hin.
  apply listSQL_rows in Hin; [|assumption].
  destruct Hin as (Hkv & Hl & _). apply latest_spec in Hl.
  destruct Hl as [Hl _]. apply Bool.andb_true_iff in Hl.
  apply AfterSQL_rows. tauto.
Qed.

Lemma poll_covers_current_witness :
  let kine := [sample 1 "a" 0; sample 2 "b" 0; sample 3 "a" 0] in
  primary_key kine /\
  In (sample 3 "a" 0) (map record (AfterSQL kine "%" 1)).
Proof.
  assert (primary_key [sample 1 "a" 0; sample 2 "b" 0; sample 3 "a" 0]) as Hpk.
  { unfold primary_key. simpl.
    repeat (constructor; [simpl; intuition discriminate|]). constructor. }
  split; [exact Hpk|].
  apply (poll_covers_current _ "%" "" 0 1 (sample 3 "a" 0) Hpk).
  - vm_compute. now left.
  - reflexivity.
Defined.

Lemma revision_list_on_snapshot kine pattern R flag :
  primary_key kine ->
  map record (ListRevisionStartSQL kine pattern R flag) =
  map record (ListRevisionStartSQL (as_of R kine) pattern R flag).
Proof.
  intros Hpk. unfold ListRevisionStartSQL.
  rewrite !listSQL_records by auto using as_of_primary_key.
  f_equal. unfold as_of. rewrite filter_both. apply filter_ext_in.
  intros kv Hkv. apply Bool.eq_true_iff_eq.
  rewrite !Bool.andb_true_iff, !latest_spec, !Bool.andb_true_iff, Z.leb_le.
  split.
  - intros (((Hl & Hid) & Hmax) & Hv). apply Z.leb_le in Hid.
    repeat split; try assumption; try (now apply Z.leb_le).
    intros mkv Hm Hsel Hn. apply filter_In in Hm. now apply Hmax.
  - intros (Hid & ((Hl & _) & Hmax) & Hv).
    repeat split; try assumption; try (now apply Z.leb_le).
    intros mkv Hm Hsel Hn. apply Hmax; try assumption.
    apply filter_In. split; [assumption|].
    apply Bool.andb_true_iff in Hsel. tauto.
Qed.

(** X12.  Rows written later do not change a read at a revision: when
    rows with ids above [R] are added to the table, the Record columns of
    the revision-bounded list at [R] stay as they were. *)
Theorem later_rows_keep_revision_list
  (kine later : Table) (pattern : string) (R flag : Z) :
  primary_key (kine ++ later)%list ->
  Forall (fun kv => R < id kv) later ->
  map record (ListRevisionStartSQL (kine ++ later)%list pattern R flag) =
  map record (ListRevisionStartSQL kine pattern R flag).
Proof.
  intros Hpk Hlater.
  assert (primary_key kine) as Hk.
  { unfold primary_key in *. rewrite map_app in Hpk.
    now apply NoDup_app_remove_r in Hpk. }
  rewrite (revision_list_on_snapshot (kine ++ later)%list) by assumption.
  rewrite (revision_list_on_snapshot kine) by assumption.
  f_equal. unfold as_of. rewrite filter_app.
  rewrite (filter_none _ later); [now rewrite app_nil_r|].
  intros kv Hkv. rewrite Forall_forall in Hlater.
  specialize (Hlater kv Hkv). apply Z.leb_gt. lia.
Qed.

Lemma later_rows_keep_revision_list_witness :
  primary_key ([sample 1 "a" 0; sample 2 "b" 0] ++ [sample 3 "a" 1])%list /\
  map record
    (ListRevisionStartSQL ([sample 1 "a" 0; sample 2 "b" 0] ++ [sample 3 "a" 1])%list
       "%" 2 0) =
  map record (ListRevisionStartSQL [sample 1 "a" 0; sample 2 "b" 0] "%" 2 0).
Proof.
  assert (primary_key ([sample 1 "a" 0; sample 2 "b" 0] ++ [sample 3 "a" 1])%list)
    as Hpk.
  { unfold primary_key. simpl.
    repeat (constructor; [simpl; intuition discriminate|]). constructor. }
  split; [exact Hpk|].
  apply (later_rows_keep_revision_list _ _ "%" 2 0 Hpk).
  repeat constructor.
Defined.

(** X13.  On a table with a primary key the poll returns strictly
    increasing ids, so no id comes twice and the last row holds the
    largest id returned. *)
Theorem poll_ids_increase (kine : Table) (pattern : string) (F : Z) :
  primary_key kine ->
  StronglySorted Z.lt (map (fun r => id (record r)) (AfterSQL kine pattern F)).
Proof.
  intros Hpk. rewrite <- (map_map record id), AfterSQL_records.
  set (rows := filter _ kine).
  assert (NoDup (map id (order_by le_id rows))) as Hnd.
  { eapply Permutation_NoDup.
    - apply Permutation_map. symmetry. apply order_by_perm.
    - now apply NoDup_map_filter. }
  pose proof (order_by_sorted le_id le_id_total le_id_trans rows) as Hs.
  induction Hs as [|kv l Hs IH Hkv]; simpl; constructor;
    inversion Hnd as [|? ? Hx Hl]; subst.
  - now apply IH.
  - rewrite Forall_forall in *. intros x Hx'. apply in_map_iff in Hx'.
    destruct Hx' as (y & <- & Hy). specialize (Hkv y Hy).
    unfold le_id in Hkv. apply Z.leb_le in Hkv.
    assert (id kv <> id y); [|lia].
    intros E. apply Hx. rewrite E. now apply in_map.
Qed.

Lemma poll_ids_increase_witness :
  primary_key [sample 3 "a" 0; sample 1 "a" 0; sample 2 "b" 0] /\
  StronglySorted Z.lt
    (map (fun r => id (record r))
       (AfterSQL [sample 3 "a" 0; sample 1 "a" 0; sample 2 "b" 0] "%" 0)).
Proof.
  assert (primary_key [sample 3 "a" 0; sample 1 "a" 0; sample 2 "b" 0]) as Hpk.
  { unfold primary_key. simpl.
    repeat (constructor; [simpl; intuition discriminate|]). constructor. }
  split; [exact Hpk|]. apply (poll_ids_increase _ "%" 0 Hpk).
Defined.

(** ** More on the error functions and the installer *)


Lemma create_replay (B : Backend) stmts :
  forall db : DB B,
    final (create B stmts db) =
    replay B (map fst (executed (create B stmts db))) db.
Proof.
  induction stmts as [|s more IH]; intros db; [reflexivity|].
  cbn [create]. destruct (Exec B s db) as [db' [e|]] eqn:E;
    cbn [final executed failed after map fst replay]; rewrite E; cbn [fst].
  - reflexivity.
  - apply IH.
Qed.

(** X15.  The value of KINE_SCHEMA_MIGRATION has no influence on the
    installer of this driver: with any two values, set or not, it
    executes the same statements with the same results, leaves the same
    state and returns the same error, and so does [New]. *)
Theorem setup_ignores_schema_version
  (B : Backend) (env env' : option string) (db : DB B) (opened : error + DB B) :
  setup B env db = setup B env' db /\ New B opened env = New B opened env'.
Proof.
  assert (forall d, setup B env d = setup B env' d) as H
    by (intros d; now rewrite !setup_is_create).
  split; [apply H|]. unfold New. destruct opened as [e|d]; [reflexivity|].
  now rewrite H.
Qed.

(** X16.  The installer undoes nothing: the state it leaves is the state
    that executing the statements of its trace, one after the other,
    leaves, the failed one included. *)
Theorem setup_leaves_replayed_state
  (B : Backend) (env : option string) (db : DB B) :
  final (setup B env db) = replay B (map fst (executed (setup B env db))) db.
Proof.
  rewrite setup_is_create. run_fields.
  destruct (exists_after (table_exists B db)); [reflexivity|].
  apply create_replay.
Qed.

(** X17.  When the existence check finds the table, the installer
    executes no statement, leaves the state, logs no warning and returns
    no error, and [New] returns the backend on the migrated state. *)
Theorem setup_on_existing_table
  (B : Backend) (env : option string) (db : DB B) :
  table_exists B db = Scanned true ->
  setup B env db = done db /\
  New B (inr db) env = mkStarted true (Some (Text.dialect, Migrate B db)) None.
Proof.
  intros Hfound.
  assert (setup B env db = done db) as H
    by (rewrite setup_is_create; run_fields; now rewrite Hfound).
  split; [exact H|]. unfold New. now rewrite H.
Qed.

Lemma setup_on_existing_table_witness :
  table_exists catalog [hd EmptyString schema] = Scanned true /\
  setup catalog (Some "2") [hd EmptyString schema]
  = @done catalog [hd EmptyString schema].
Proof.
  split; [vm_compute; reflexivity|].
  apply (setup_on_existing_table catalog (Some "2") [hd EmptyString schema]).
  vm_compute. reflexivity.
Defined.

(** X18.  The installer logs the warning about the existence check
    exactly when the check fails with an error other than "no rows"; an
    absent table alone is no reason for it. *)
Theorem setup_warns_on_failed_check
  (B : Backend) (env : option string) (db : DB B) :
  warned (setup B env db) = true <->
  exists e, table_exists B db = ScanFailed e /\ e <> ErrNoRows.
Proof.
  rewrite setup_is_create. run_fields. split.
  - destruct (table_exists B db) as [b|e]; [discriminate|].
    intros H. exists e. split; [reflexivity|]. intros ->. discriminate.
  - intros (e & -> & Hne). destruct e; try reflexivity. now contradiction Hne.
Qed.

(** X19.  [New] returns a backend exactly when it returns no error: an
    error of [generic.Open] is returned as it is without any statement
    being executed, an error of the installer is returned as it is, and
    otherwise the backend holds the templates of the dialect and the state
    that the installer left, migrated. *)
Theorem New_returns_backend_or_error
  (B : Backend) (opened : error + DB B) (env : option string) :
  let started := New B opened env in
  (ok started = true <-> err started = None) /\
  (backend started = None <-> err started <> None) /\
  (forall e, opened = inl e -> started = mkStarted false None (Some e)) /\
  (forall db, opened = inr db ->
     err started = returned (setup B env db) /\
     (returned (setup B env db) = None ->
      backend started =
      Some (Text.dialect, Migrate B (final (setup B env db))))).
Proof.
  unfold New. destruct opened as [e|db]; cbn zeta.
  - cbn [ok err backend]. split; [split; discriminate|].
    split; [split; [discriminate | reflexivity]|].
    split; [now intros e' [= <-] | intros db [=]].
  - destruct (returned (setup B env db)) as [e|] eqn:E; cbn [ok err backend].
    + split; [split; discriminate|].
      split; [split; [discriminate | reflexivity]|].
      split; [intros e' [=]|]. intros db' [= <-]. rewrite E.
      split; [reflexivity | discriminate].
    + split; [split; reflexivity|].
      split; [split; [discriminate | congruence]|].
      split; [intros e' [=]|]. intros db' [= <-]. rewrite E.
      split; reflexivity.
Qed.
